(** * weeg-storage: a typed, observable wrapper around the host's key-value store

    A shallow embedding of [StorageItem.ts] and of the module that declares
    [GlobalStorageObserver], followed by the properties of the two that the
    specification of the repository states.

    The code runs against a host (the browser's [storage] API) and calls
    user-supplied callbacks; both are passed around as explicit state: a
    [World] holds the host's storage areas, the listeners registered with
    [browser.storage.onChanged], the observer sets of the items that were
    allocated, the promise reactions that have not run yet and a log of what
    became observable (console output, event-sink dispatches, callback calls). *)

From Stdlib Require Import ZArith.
From stdpp Require Import base option list strings gmap.

Local Open Scope string_scope.
Local Open Scope list_scope.

(** ** JavaScript values, errors and completions *)

(** The values other than [undefined].  The code never looks into one: it
    only tells it from [undefined].  [JProto name] is the member [name] of
    [Object.prototype] (a built-in function, or the prototype itself for
    [__proto__]); [JObject tag] is any other value, an array or an object,
    told from the others by its tag. *)
Inductive Json :=
| JNull
| JBool (b : bool)
| JNum (n : Z)
| JStr (s : string)
| JProto (name : string)
| JObject (tag : nat).

(** A JavaScript value as the code sees it: [undefined], or a proper value.
    The type parameter [T] of [StorageItem<T>] is unconstrained, so both the
    default value and the argument of [setValue] range over [JsVal]. *)
Inductive JsVal :=
| undefined
| defined (j : Json).

Inductive JsError :=
| Error (message : string)
| TypeError (message : string).

(** How a call ends: it returns (an [async] function: its promise is
    fulfilled), or it throws (its promise is rejected). *)
Inductive Completion (A : Type) :=
| Normal (a : A)
| Throw (e : JsError).
Arguments Normal {A} a.
Arguments Throw {A} e.

Global Instance Json_eq_dec : EqDecision Json.
Proof. solve_decision. Defined.
Global Instance JsVal_eq_dec : EqDecision JsVal.
Proof. solve_decision. Defined.
Global Instance JsError_eq_dec : EqDecision JsError.
Proof. solve_decision. Defined.

(** ** Properties of a plain object *)

(** The objects the host hands over, the answer of [get] and the [changes]
    of a notification, are plain objects: besides their own properties, kept
    here in a finite map, they have the members they inherit from
    [Object.prototype]. *)
Definition Object_prototype : list string :=
  ["constructor"; "hasOwnProperty"; "isPrototypeOf"; "propertyIsEnumerable";
   "toLocaleString"; "toString"; "valueOf"; "__proto__";
   "__defineGetter__"; "__defineSetter__"; "__lookupGetter__"; "__lookupSetter__"].

Definition inherited (name : string) : bool :=
  bool_decide (name ∈ Object_prototype).

(** What [obj[name]] finds: an own property, else an inherited member, else
    nothing ([undefined]). *)
Inductive Property (A : Type) :=
| Own (a : A)
| Member (name : string)
| Missing.
Arguments Own {A} a.
Arguments Member {A} name.
Arguments Missing {A}.

Definition get_property {A : Type} (obj : gmap string A) (name : string) : Property A :=
  match obj !! name with
  | Some a => Own a
  | None => if inherited name then Member name else Missing
  end.

(** [name in obj] *)
Definition has_property {A : Type} (obj : gmap string A) (name : string) : bool :=
  match get_property obj name with
  | Missing => false
  | _ => true
  end.

(** ** The host's storage areas *)

Inductive AreaKind := Local | Sync | Managed.

Global Instance AreaKind_eq_dec : EqDecision AreaKind.
Proof. solve_decision. Defined.

(** Modelled from the spec: the host's store is not code of this repository.
    Section 6 of the specification gives each area [get(key)] returning the
    value or nothing, [set(key, value)] and [remove(key)]; sections 4.2 and 7
    add that a read of an uninitialized (managed) area throws.  An area is
    therefore either uninitialized, and every operation on it throws, or a
    finite map from keys to persisted values.  [undefined] has no persisted
    form: an entry whose value is [undefined] is not written. *)
Inductive AreaState :=
| Uninitialized
| Ready (items : gmap string Json).

Definition area_get (a : AreaState) (k : string) : Completion (gmap string Json) :=
  match a with
  | Uninitialized => Throw (Error "storage area is not initialized")
  | Ready items =>
      Normal (match items !! k with
              | Some j => {[ k := j ]}
              | None => ∅
              end)
  end.

Definition area_set (a : AreaState) (k : string) (v : JsVal) : Completion AreaState :=
  match a with
  | Uninitialized => Throw (Error "storage area is not initialized")
  | Ready items =>
      Normal (match v with
              | undefined => Ready items
              | defined j => Ready (<[ k := j ]> items)
              end)
  end.

Definition area_remove (a : AreaState) (k : string) : Completion AreaState :=
  match a with
  | Uninitialized => Throw (Error "storage area is not initialized")
  | Ready items => Normal (Ready (delete k items))
  end.

(** The three area objects [browser.storage.local], [.sync] and [.managed]. *)
Record Storage := mkStorage {
  local : AreaState;
  sync : AreaState;
  managed : AreaState
}.

Definition area_state (st : Storage) (k : AreaKind) : AreaState :=
  match k with
  | Local => local st
  | Sync => sync st
  | Managed => managed st
  end.

Definition with_area (st : Storage) (k : AreaKind) (a : AreaState) : Storage :=
  match k with
  | Local => mkStorage a (sync st) (managed st)
  | Sync => mkStorage (local st) a (managed st)
  | Managed => mkStorage (local st) (sync st) a
  end.

(** [browser.Storage.StorageChange] and the [changes] argument of a change
    notification, a JavaScript object used as a map from keys to changes. *)
Record StorageChange := mkChange {
  oldValue : JsVal;
  newValue : JsVal
}.

(** [const { newValue } = change]: the property of a change; a member of
    [Object.prototype] has no property of that name. *)
Definition newValue_of (change : Property StorageChange) : JsVal :=
  match change with
  | Own c => newValue c
  | _ => undefined
  end.

(** ** Callbacks, storage items and the world *)

(** An observer callback [(newValue: T) => void]: a function object with an
    identity ([Set] compares callbacks by identity) and a body that either
    returns or throws when it is called with a value. *)
Record Callback := mkCallback {
  cb_id : nat;
  cb_body : JsVal → option JsError
}.

(** The fields of a [StorageItem].  [area] is the reference to the area
    object the item is bound to, [None] when the field was left [undefined];
    [this] is the address of the object, under which the world keeps the
    item's [observers] set and by which its [onChanged] sink is known. *)
Record StorageItem := mkStorageItem {
  this : nat;
  key : string;
  areaName : string;
  defaultValue : JsVal;
  area : option AreaKind
}.

Definition AREA_LOCAL : string := "local".
Definition AREA_SYNC : string := "sync".
Definition AREA_MANAGED : string := "managed".

(** A listener registered with [browser.storage.onChanged]: the closure the
    constructor of an item creates (it captures the item), or the closure of
    the [GlobalStorageObserver] module. *)
Inductive Listener :=
| ItemListener (it : StorageItem)
| GlobalListener.

(** What the program makes observable. *)
Inductive Event :=
| console_warn (message : string)
| console_error (e : JsError)
| sink_dispatched (sink : nat) (v : JsVal)
| global_dispatched (changes : gmap string StorageChange) (area_name : string)
| invoked (cb : nat) (v : JsVal)
| uncaught (e : JsError).

(** A promise reaction that is scheduled and has not run:
    [promise.then(callback)] on a promise that settles with [value]. *)
Record Task := mkTask {
  task_callback : Callback;
  task_value : JsVal
}.

Record World := mkWorld {
  browser_storage : bool;
  areas : Storage;
  listeners : list Listener;
  observers : gmap nat (list Callback);
  microtasks : list Task;
  log : list Event
}.

Definition set_areas (st : Storage) (w : World) : World :=
  mkWorld (browser_storage w) st (listeners w) (observers w) (microtasks w) (log w).
Definition set_listeners (ls : list Listener) (w : World) : World :=
  mkWorld (browser_storage w) (areas w) ls (observers w) (microtasks w) (log w).
Definition set_observers (o : gmap nat (list Callback)) (w : World) : World :=
  mkWorld (browser_storage w) (areas w) (listeners w) o (microtasks w) (log w).
Definition set_microtasks (ts : list Task) (w : World) : World :=
  mkWorld (browser_storage w) (areas w) (listeners w) (observers w) ts (log w).
Definition set_log (l : list Event) (w : World) : World :=
  mkWorld (browser_storage w) (areas w) (listeners w) (observers w) (microtasks w) l.

(** ** Computations: state passing with exceptions *)

Definition M (A : Type) : Type := World → Completion A * World.

Global Instance M_ret : MRet M := λ A a w, (Normal a, w).
Global Instance M_bind : MBind M := λ A B f m w,
  match m w with
  | (Normal a, w') => f a w'
  | (Throw e, w') => (Throw e, w')
  end.

Definition throw {A : Type} (e : JsError) : M A := λ w, (Throw e, w).

(** [try { body } catch (e) { handler(e) }] *)
Definition try_catch {A : Type} (body : M A) (handler : JsError → M A) : M A := λ w,
  match body w with
  | (Normal a, w') => (Normal a, w')
  | (Throw e, w') => handler e w'
  end.

Definition emit (ev : Event) : M unit := λ w, (Normal tt, set_log (log w ++ [ev]) w).

(** Calling a function object: the call is observable, then the body decides
    whether it returns or throws. *)
Definition call (cb : Callback) (v : JsVal) : M unit :=
  emit (invoked (cb_id cb) v);;
  match cb_body cb v with
  | Some e => throw e
  | None => mret tt
  end.

(** [forEach] of a [Set] or an array: the elements in insertion order; an exception
    thrown by the function ends the iteration. *)
Fixpoint forEach {A : Type} (l : list A) (f : A → M unit) : M unit :=
  match l with
  | [] => mret tt
  | cb :: l' => f cb;; forEach l' f
  end.

Definition gets {A : Type} (f : World → A) : M A := λ w, (Normal (f w), w).
Definition modify (f : World → World) : M unit := λ w, (Normal tt, f w).

(** ** The host, as the code calls it *)

(** [browser.storage.onChanged.addListener(l)].  Reading a property of
    [browser.storage] when [browser.storage] is [undefined] is a [TypeError]. *)
Definition browser_storage_onChanged_addListener (l : Listener) : M unit := λ w,
  if browser_storage w
  then (Normal tt, set_listeners (listeners w ++ [l]) w)
  else (Throw (TypeError "browser.storage is undefined"), w).

(** [await area.get(key)], [await area.set({[key]: value})] and
    [await area.remove(key)] on the area object of kind [k]. *)
Definition host_get (k : AreaKind) (key : string) : M (gmap string Json) := λ w,
  (area_get (area_state (areas w) k) key, w).

Definition host_set (k : AreaKind) (key : string) (v : JsVal) : M unit := λ w,
  match area_set (area_state (areas w) k) key v with
  | Normal a => (Normal tt, set_areas (with_area (areas w) k a) w)
  | Throw e => (Throw e, w)
  end.

Definition host_remove (k : AreaKind) (key : string) : M unit := λ w,
  match area_remove (area_state (areas w) k) key with
  | Normal a => (Normal tt, set_areas (with_area (areas w) k a) w)
  | Throw e => (Throw e, w)
  end.

(** ** The [observers] set of an item *)

Definition observers_of (w : World) (it : StorageItem) : list Callback :=
  default [] (observers w !! this it).

Definition same_callback (cb c : Callback) : bool := Nat.eqb (cb_id c) (cb_id cb).

(** [Set.prototype.add] and [Set.prototype.delete] on a set kept in
    insertion order. *)
Definition Set_add (cb : Callback) (l : list Callback) : list Callback :=
  if existsb (same_callback cb) l then l else l ++ [cb].

Definition Set_delete (cb : Callback) (l : list Callback) : list Callback :=
  List.filter (λ c, negb (same_callback cb c)) l.

Definition observers_update (it : StorageItem) (f : list Callback → list Callback) : M unit :=
  modify (λ w, set_observers (<[ this it := f (observers_of w it) ]> (observers w)) w).

(** ** StorageItem.ts *)

(** The listener the constructor registers (lines 73 to 86). *)
Definition changeListener (it : StorageItem)
    (changes : gmap string StorageChange) (area_name : string) : M unit :=
  if negb (has_property changes (key it)) then mret tt
  else if negb (bool_decide (area_name = areaName it)) then mret tt
  else
    let change := get_property changes (key it) in
    match change with
    | Missing => mret tt
    | _ =>
        let value :=
          match newValue_of change with
          | undefined => defaultValue it
          | defined j => defined j
          end in
        emit (sink_dispatched (this it) value);;
        try_catch
          (obs ← gets (λ w, observers_of w it);
           forEach obs (λ observer, call observer value))
          (λ e, emit (console_error e))
    end.

(** Allocation of the object and its field initialisers: a fresh address
    with an empty [observers] set. *)
Definition allocate : M nat := λ w,
  let a := fresh (dom (observers w)) in
  (Normal a, set_observers (<[ a := [] ]> (observers w)) w).

(** [new StorageItem(key, defaultValue, area)] (lines 41 to 87).  The [area]
    argument is the string the caller passes at run time. *)
Definition new_StorageItem (key : string) (defaultValue : JsVal) (area : string)
    : M StorageItem :=
  this ← allocate;
  available ← gets browser_storage;
  if negb available then
    emit (console_warn "browser.storage is not available, storage will not work");;
    mret (mkStorageItem this key area defaultValue None)
  else
    bound ←
      (if decide (area = AREA_LOCAL) then mret (Local, "local")
       else if decide (area = AREA_SYNC) then mret (Sync, "sync")
       else if decide (area = AREA_MANAGED) then mret (Managed, "managed")
       else throw (Error ("Unknown storage area: " ++ area)%string));
    let it := mkStorageItem this key bound.2 defaultValue (Some bound.1) in
    browser_storage_onChanged_addListener (ItemListener it);;
    mret it.

Definition getRawValue (it : StorageItem) : M JsVal :=
  try_catch
    (match area it with
     | None => mret undefined
     | Some k =>
         data ← host_get k (key it);
         mret (match get_property data (key it) with
               | Own j => defined j
               | Member name => defined (JProto name)
               | Missing => undefined
               end)
     end)
    (λ _, mret undefined).

Definition hasValue (it : StorageItem) : M bool :=
  value ← getRawValue it;
  mret (negb (bool_decide (value = undefined))).

Definition getValue (it : StorageItem) : M JsVal :=
  value ← getRawValue it;
  if bool_decide (value = undefined) then mret (defaultValue it) else mret value.

Definition clearValue (it : StorageItem) : M unit :=
  if bool_decide (areaName it = "managed") then
    throw (Error "Cannot clear managed storage")
  else
    match area it with
    | None => mret tt
    | Some k => host_remove k (key it)
    end.

Definition setValue (it : StorageItem) (value : JsVal) : M unit :=
  if bool_decide (areaName it = "managed") then
    throw (Error "Cannot set managed storage")
  else
    match area it with
    | None => mret tt
    | Some k => host_set k (key it) value
    end.

(** [promise.then(callback)]: the call that produces the promise has run (for
    [getValue], up to the host's answer); the callback is scheduled with the
    value the promise is fulfilled with.  A rejected promise schedules
    nothing and is reported by the runtime. *)
Definition then_ (promise : M JsVal) (callback : Callback) : M unit := λ w,
  match promise w with
  | (Normal v, w') => (Normal tt, set_microtasks (microtasks w' ++ [mkTask callback v]) w')
  | (Throw e, w') => (Normal tt, set_log (log w' ++ [uncaught e]) w')
  end.

Definition observe (it : StorageItem) (callback : Callback) (reportCurrentValue : bool)
    : M unit :=
  (if reportCurrentValue then then_ (getValue it) callback else mret tt);;
  observers_update it (Set_add callback).

Definition unobserve (it : StorageItem) (callback : Callback) : M unit :=
  observers_update it (Set_delete callback).

(** ** The module of [GlobalStorageObserver] *)

(** Evaluation of the module (lines 30 to 36): the class with its static
    sink, then the statement at module scope. *)
Definition GlobalStorageObserver_module : M unit :=
  browser_storage_onChanged_addListener GlobalListener.

(** ** What the runtime does between calls *)

Definition run_listener (l : Listener)
    (changes : gmap string StorageChange) (area_name : string) : M unit :=
  match l with
  | ItemListener it => changeListener it changes area_name
  | GlobalListener => emit (global_dispatched changes area_name)
  end.

(** The host raises a change notification: every registered listener runs,
    in registration order; the host reports what a listener throws. *)
Definition onChanged_fire (changes : gmap string StorageChange) (area_name : string)
    : M unit :=
  ls ← gets listeners;
  forEach ls (λ l, try_catch (run_listener l changes area_name) (λ e, emit (uncaught e))).

(** The scheduled promise reactions run, oldest first. *)
Definition run_microtasks : M unit :=
  ts ← gets microtasks;
  modify (set_microtasks []);;
  forEach ts (λ t, try_catch (call (task_callback t) (task_value t))
                             (λ e, emit (uncaught e))).

(** ** Notions the properties are stated with *)

(** The area a name denotes. *)
Definition area_kind (name : string) : option AreaKind :=
  if decide (name = AREA_LOCAL) then Some Local
  else if decide (name = AREA_SYNC) then Some Sync
  else if decide (name = AREA_MANAGED) then Some Managed
  else None.

(** The value the store holds under [key] in the area of kind [k], if any. *)
Definition stored_in (st : Storage) (k : AreaKind) (key : string) : option Json :=
  match area_state st k with
  | Uninitialized => None
  | Ready items => items !! key
  end.

(** The value stored under the item's key in the area the item is bound to. *)
Definition stored_value (w : World) (it : StorageItem) : option Json :=
  match area it with
  | Some k => stored_in (areas w) k (key it)
  | None => None
  end.

(** The effective value: the stored value if there is one, else the default. *)
Definition effective_value (w : World) (it : StorageItem) : JsVal :=
  match stored_value w it with
  | Some j => defined j
  | None => defaultValue it
  end.

(** What [getRawValue] finds: the stored value; or, with nothing stored
    under a key that names a member of [Object.prototype], that member,
    inherited by the object the host answers with; or nothing. *)
Definition raw_value (w : World) (it : StorageItem) : JsVal :=
  match area it with
  | None => undefined
  | Some k =>
      match area_state (areas w) k with
      | Uninitialized => undefined
      | Ready items =>
          match items !! key it with
          | Some j => defined j
          | None => if inherited (key it) then defined (JProto (key it)) else undefined
          end
      end
  end.

(** What [getValue] is fulfilled with. *)
Definition resolved_value (w : World) (it : StorageItem) : JsVal :=
  match raw_value w it with
  | undefined => defaultValue it
  | defined j => defined j
  end.

(** The value a notification brings to an item, if it passes the key test
    of the item's listener: that of the change under the item's own key, or
    the default when the key is only found as an inherited member. *)
Definition passing_value (it : StorageItem) (changes : gmap string StorageChange)
    : option JsVal :=
  match get_property changes (key it) with
  | Own change =>
      Some (match newValue change with
            | undefined => defaultValue it
            | defined j => defined j
            end)
  | Member _ => Some (defaultValue it)
  | Missing => None
  end.

(** The values a callback was called with, oldest first. *)
Definition calls_of (id : nat) (l : list Event) : list JsVal :=
  omap (λ ev, match ev with
              | invoked c v => if Nat.eqb c id then Some v else None
              | _ => None
              end) l.

Definition registered (cb : Callback) (l : list Callback) : bool :=
  existsb (same_callback cb) l.

(** ** The allocation the constructor starts with *)

Definition fresh_address (w : World) : nat := fresh (dom (observers w)).

Definition allocated (w : World) : World :=
  set_observers (<[ fresh_address w := [] ]> (observers w)) w.

(** ** What a dispatch to the observers amounts to *)

(** The observers a [forEach] that calls each one with [v] reaches: all up
    to and including the first whose body throws. *)
Fixpoint reached (v : JsVal) (l : list Callback) : list Callback :=
  match l with
  | [] => []
  | cb :: l' =>
      cb :: match cb_body cb v with
            | Some _ => []
            | None => reached v l'
            end
  end.

(** What the first observer that throws on [v] throws, if one does. *)
Fixpoint first_thrown (v : JsVal) (l : list Callback) : option JsError :=
  match l with
  | [] => None
  | cb :: l' =>
      match cb_body cb v with
      | Some e => Some e
      | None => first_thrown v l'
      end
  end.

(** The value a change notifies: the new value, or the default when the
    change carries none. *)
Definition notified_value (it : StorageItem) (change : StorageChange) : JsVal :=
  match newValue change with
  | undefined => defaultValue it
  | defined j => defined j
  end.

(** ** Worlds, items and callbacks used as concrete inputs *)

(** A browser with the storage API: empty [local] and [sync] areas, and a
    managed area that was never provisioned. *)
Definition browser_with_storage : World :=
  mkWorld true (mkStorage (Ready ∅) (Ready ∅) Uninitialized) [] ∅ [] [].

(** A browser in which [browser.storage] is [undefined]. *)
Definition browser_without_storage : World :=
  mkWorld false (mkStorage Uninitialized Uninitialized Uninitialized) [] ∅ [] [].

(** An observer that throws whatever it is called with, and one that
    returns. *)
Definition noisy : Callback := mkCallback 1 (λ _, Some (Error "observer failed")).
Definition quiet : Callback := mkCallback 2 (λ _, None).

Definition managed_item : StorageItem :=
  mkStorageItem 0 "policy" "managed" (defined (JStr "fallback")) (Some Managed).

Definition local_item : StorageItem :=
  mkStorageItem 0 "theme" "local" (defined (JStr "light")) (Some Local).

(** The world after [new StorageItem("theme", "light", "local")] in
    [browser_with_storage]; the item is [local_item]. *)
Definition constructed_world : World :=
  mkWorld true (mkStorage (Ready ∅) (Ready ∅) Uninitialized)
          [ItemListener local_item] {[ 0 := [] ]} [] [].

Definition watched_world : World :=
  mkWorld true (mkStorage (Ready ∅) (Ready ∅) Uninitialized)
          [ItemListener local_item] {[ 0 := [noisy; quiet] ]} [] [].

Definition theme_changed : gmap string StorageChange :=
  {[ "theme" := mkChange undefined (defined (JStr "dark")) ]}.

Definition probe : Callback := mkCallback 7 (λ _, None).

(** An item for the local area with two observers, [noisy] registered before
    [quiet], and then a change of the item's key in its area. *)
Definition two_observers_notified : M unit :=
  it ← new_StorageItem "theme" (defined (JStr "light")) "local";
  observe it noisy false;;
  observe it quiet false;;
  onChanged_fire theme_changed "local".

(** ** Further notions and inputs *)


(** The identities of the callbacks of an observer set, in insertion order. *)
Definition identities (l : list Callback) : list nat := map cb_id l.

(** A browser whose local area holds a theme and a font size. *)
Definition browser_with_settings : World :=
  mkWorld true
          (mkStorage (Ready {[ "theme" := JStr "dark"; "font" := JNum 12 ]})
                     (Ready ∅) Uninitialized)
          [] ∅ [] [].

(** A browser whose sync area cannot be used. *)
Definition browser_with_broken_sync : World :=
  mkWorld true (mkStorage (Ready ∅) Uninitialized Uninitialized) [] ∅ [] [].

Definition font_item : StorageItem :=
  mkStorageItem 1 "font" "local" (defined (JNum 10)) (Some Local).

Definition sync_item : StorageItem :=
  mkStorageItem 2 "theme" "sync" (defined (JStr "light")) (Some Sync).

(** The change that removes the theme. *)
Definition theme_removed : gmap string StorageChange :=
  {[ "theme" := mkChange (defined (JStr "dark")) undefined ]}.

(** [constructed_world] with two observers that return. *)
Definition quiet_world : World :=
  mkWorld true (mkStorage (Ready ∅) (Ready ∅) Uninitialized)
          [ItemListener local_item] {[ 0 := [quiet; probe] ]} [] [].

(** Items whose keys name members of [Object.prototype]. *)
Definition constructor_item : StorageItem :=
  mkStorageItem 0 "constructor" "local" (defined (JStr "fallback")) (Some Local).

Definition toString_item : StorageItem :=
  mkStorageItem 0 "toString" "local" (defined (JStr "fallback")) (Some Local).

(** A browser in which [toString_item] or [constructor_item] is observed by
    [quiet]. *)
Definition inherited_key_world : World :=
  mkWorld true (mkStorage (Ready ∅) (Ready ∅) Uninitialized)
          [ItemListener toString_item] {[ 0 := [quiet] ]} [] [].

(** What running a pending reaction makes observable: the call, and the
    exception the callback throws, which nobody catches. *)
Definition reaction_events (t : Task) : list Event :=
  invoked (cb_id (task_callback t)) (task_value t) ::
  match cb_body (task_callback t) (task_value t) with
  | Some e => [uncaught e]
  | None => []
  end.

(** * Properties *)

(** ** Unfolding the monad *)

Lemma bind_run {A B : Type} (m : M A) (f : A → M B) (w : World) :
  (m ≫= f) w = match m w with
               | (Normal a, w') => f a w'
               | (Throw e, w') => (Throw e, w')
               end.
Proof. reflexivity. Qed.

Lemma bind_normal {A B : Type} (m : M A) (f : A → M B) (w w' : World) (a : A) :
  m w = (Normal a, w') → (m ≫= f) w = f a w'.
Proof. intros H. rewrite bind_run, H. reflexivity. Qed.

Lemma bind_throw {A B : Type} (m : M A) (f : A → M B) (w w' : World) (e : JsError) :
  m w = (Throw e, w') → (m ≫= f) w = (Throw e, w').
Proof. intros H. rewrite bind_run, H. reflexivity. Qed.

Lemma ret_run {A : Type} (a : A) (w : World) : (mret a : M A) w = (Normal a, w).
Proof. reflexivity. Qed.

(** ** Reads *)

Lemma get_property_singleton {A : Type} (k : string) (a : A) :
  get_property ({[ k := a ]} : gmap string A) k = Own a.
Proof. unfold get_property. by rewrite lookup_singleton_eq. Qed.

Lemma get_property_empty {A : Type} (k : string) :
  get_property (∅ : gmap string A) k = if inherited k then Member k else Missing.
Proof. unfold get_property. by rewrite lookup_empty. Qed.

Lemma getRawValue_run (it : StorageItem) (w : World) :
  getRawValue it w = (Normal (raw_value w it), w).
Proof.
  unfold getRawValue, try_catch, raw_value.
  destruct (area it) as [k|]; [|reflexivity].
  rewrite bind_run. unfold host_get, area_get.
  destruct (area_state (areas w) k) as [|items]; [reflexivity|].
  rewrite ret_run. cbn.
  destruct (items !! key it) as [j|] eqn:E.
  - by rewrite get_property_singleton.
  - rewrite get_property_empty. by destruct (inherited (key it)).
Qed.

Lemma getValue_run (it : StorageItem) (w : World) :
  getValue it w = (Normal (resolved_value w it), w).
Proof.
  unfold getValue, resolved_value. rewrite bind_run, getRawValue_run. cbn.
  destruct (raw_value w it); reflexivity.
Qed.

Lemma hasValue_run (it : StorageItem) (w : World) :
  hasValue it w = (Normal (negb (bool_decide (raw_value w it = undefined))), w).
Proof. unfold hasValue. by rewrite bind_run, getRawValue_run. Qed.

(** What is stored is what a read finds. *)
Lemma raw_value_stored (it : StorageItem) (w : World) (j : Json) :
  stored_value w it = Some j → raw_value w it = defined j.
Proof.
  unfold stored_value, stored_in, raw_value.
  destruct (area it) as [k|]; [|done].
  destruct (area_state (areas w) k) as [|items]; [done|]. by intros ->.
Qed.

(** Under a key that names no member of [Object.prototype], nothing else is
    found. *)
Lemma raw_value_ordinary (it : StorageItem) (w : World) :
  inherited (key it) = false →
  raw_value w it = match stored_value w it with
                   | Some j => defined j
                   | None => undefined
                   end.
Proof.
  intros Hk. unfold stored_value, stored_in, raw_value.
  destruct (area it) as [k|]; [|done].
  destruct (area_state (areas w) k) as [|items]; [done|].
  destruct (items !! key it); [done|]. by rewrite Hk.
Qed.

Lemma resolved_value_effective (it : StorageItem) (w : World) :
  inherited (key it) = false ∨ is_Some (stored_value w it) →
  resolved_value w it = effective_value w it.
Proof.
  unfold resolved_value, effective_value. intros [Hk|[j Hj]].
  - rewrite (raw_value_ordinary it w Hk). by destruct (stored_value w it).
  - by rewrite (raw_value_stored it w j Hj), Hj.
Qed.

Lemma raw_value_unbound (it : StorageItem) (w : World) :
  area it = None → raw_value w it = undefined.
Proof. unfold raw_value. by intros ->. Qed.

Lemma host_read_throws_no_value (it : StorageItem) (w : World) (k : AreaKind) (e : JsError) :
  area it = Some k →
  area_get (area_state (areas w) k) (key it) = Throw e →
  raw_value w it = undefined.
Proof.
  intros Ha Hg. unfold raw_value. rewrite Ha.
  unfold area_get in Hg. destruct (area_state (areas w) k); [reflexivity|discriminate].
Qed.

(** ** Construction *)

(** The three outcomes of the constructor: a degraded item and a warning, an
    active item and a registered listener, or the invalid-area error. *)
Lemma new_StorageItem_run (key : string) (d : JsVal) (a : string) (w : World) :
  new_StorageItem key d a w =
  if browser_storage w then
    match area_kind a with
    | Some k =>
        let it := mkStorageItem (fresh_address w) key a d (Some k) in
        (Normal it, set_listeners (listeners w ++ [ItemListener it]) (allocated w))
    | None => (Throw (Error ("Unknown storage area: " ++ a)%string), allocated w)
    end
  else
    (Normal (mkStorageItem (fresh_address w) key a d None),
     set_log (log w ++ [console_warn "browser.storage is not available, storage will not work"])
             (allocated w)).
Proof.
  unfold new_StorageItem, area_kind.
  rewrite bind_run. change (allocate w) with (Normal (fresh_address w), allocated w).
  cbn iota. rewrite bind_run. unfold gets at 1.
  change (browser_storage (allocated w)) with (browser_storage w).
  destruct (browser_storage w) eqn:Hb; cbn [negb]; cbn iota.
  - rewrite bind_run.
    destruct (decide (a = AREA_LOCAL)) as [->|?];
      [|destruct (decide (a = AREA_SYNC)) as [->|?];
        [|destruct (decide (a = AREA_MANAGED)) as [->|?]]].
    all: rewrite ?ret_run; unfold throw; cbn iota; try reflexivity.
    all: rewrite bind_run; unfold browser_storage_onChanged_addListener;
      change (browser_storage (allocated w)) with (browser_storage w);
      rewrite Hb; reflexivity.
  - reflexivity.
Qed.

Lemma area_kind_None (a : string) :
  area_kind a = None ↔ a ≠ AREA_LOCAL ∧ a ≠ AREA_SYNC ∧ a ≠ AREA_MANAGED.
Proof.
  unfold area_kind. repeat case_decide; split; try done; intros (? & ? & ?); done.
Qed.

Lemma area_kind_Some_name (a : string) (k : AreaKind) :
  area_kind a = Some k →
  a = match k with Local => AREA_LOCAL | Sync => AREA_SYNC | Managed => AREA_MANAGED end.
Proof.
  unfold area_kind. repeat case_decide; intros [= <-]; done.
Qed.

(** Whatever the constructor returns keeps the key and the default it was
    given, is named after the area it was given, and is bound to the area of
    that name exactly when [browser.storage] was there. *)
Lemma new_StorageItem_fields (key' : string) (d : JsVal) (a : string)
    (w w' : World) (it : StorageItem) :
  new_StorageItem key' d a w = (Normal it, w') →
  key it = key' ∧ defaultValue it = d ∧ areaName it = a ∧
  area it = (if browser_storage w then area_kind a else None) ∧
  areas w' = areas w.
Proof.
  rewrite new_StorageItem_run.
  destruct (browser_storage w); [destruct (area_kind a) as [k|]|];
    cbn zeta; intros [= <- <-]; done.
Qed.

(** ** The module of [GlobalStorageObserver] without the storage API *)

(** C2, on the code: evaluating the module in a browser where
    [browser.storage] is [undefined] does not complete silently.  The
    statement at module scope reads [browser.storage.onChanged] with no
    guard, which throws a [TypeError]; no listener is registered and the
    world is as it was. *)
Theorem GlobalStorageObserver_module_without_storage (w : World) :
  browser_storage w = false →
  GlobalStorageObserver_module w =
  (Throw (TypeError "browser.storage is undefined"), w).
Proof.
  intros Hb. unfold GlobalStorageObserver_module, browser_storage_onChanged_addListener.
  rewrite Hb. reflexivity.
Qed.

Lemma GlobalStorageObserver_module_without_storage_witness :
  GlobalStorageObserver_module browser_without_storage =
  (Throw (TypeError "browser.storage is undefined"), browser_without_storage).
Proof.
  apply (GlobalStorageObserver_module_without_storage browser_without_storage).
  reflexivity.
Defined.

(** With the storage API the module registers its one listener. *)
Lemma GlobalStorageObserver_module_with_storage (w : World) :
  browser_storage w = true →
  GlobalStorageObserver_module w =
  (Normal tt, set_listeners (listeners w ++ [GlobalListener]) w).
Proof.
  intros Hb. unfold GlobalStorageObserver_module, browser_storage_onChanged_addListener.
  by rewrite Hb.
Qed.

(** ** Invalid area names *)

(** C3 as stated fails: without the storage API the constructor returns
    before it looks at the area, so an unknown area name is accepted. *)
Lemma invalid_area_not_always_rejected :
  ¬ (∀ (key : string) (d : JsVal) (a : string) (w : World),
       a ≠ AREA_LOCAL → a ≠ AREA_SYNC → a ≠ AREA_MANAGED →
       ∃ e, (new_StorageItem key d a w).1 = Throw e).
Proof.
  intros H.
  destruct (H "setting" undefined "session" browser_without_storage) as [e He];
    [done..|].
  vm_compute in He. discriminate.
Qed.

(** C3, amended: for an area name outside local, sync and managed, the
    constructor throws the invalid-area error when the storage API is
    available, and registers no listener; when the API is unavailable it
    returns a degraded item named after the given area and logs a warning. *)
Theorem invalid_area_rejected_when_storage_available
    (key : string) (d : JsVal) (a : string) (w : World) :
  a ≠ AREA_LOCAL → a ≠ AREA_SYNC → a ≠ AREA_MANAGED →
  if browser_storage w then
    (new_StorageItem key d a w).1 = Throw (Error ("Unknown storage area: " ++ a)%string) ∧
    listeners (new_StorageItem key d a w).2 = listeners w ∧
    log (new_StorageItem key d a w).2 = log w
  else
    ∃ it, (new_StorageItem key d a w).1 = Normal it ∧
          area it = None ∧ areaName it = a ∧
          listeners (new_StorageItem key d a w).2 = listeners w ∧
          log (new_StorageItem key d a w).2 =
            log w ++ [console_warn "browser.storage is not available, storage will not work"].
Proof.
  intros H1 H2 H3.
  assert (area_kind a = None) as Hk by (apply area_kind_None; done).
  rewrite new_StorageItem_run, Hk.
  destruct (browser_storage w); [done|].
  eexists. split; [reflexivity|]. done.
Qed.

Lemma invalid_area_rejected_when_storage_available_witness :
  (new_StorageItem "setting" undefined "session" browser_with_storage).1 =
    Throw (Error "Unknown storage area: session").
Proof.
  refine (proj1 (invalid_area_rejected_when_storage_available
                   "setting" undefined "session" browser_with_storage _ _ _));
    discriminate.
Defined.

(** ** Reads that the host fails *)

(** C4: when the host's read throws, [hasValue] is fulfilled with [false] and
    [getValue] with the default; neither throws, and nothing else changes. *)
Theorem read_failure_is_absent_value
    (it : StorageItem) (w : World) (k : AreaKind) (e : JsError) :
  area it = Some k →
  area_get (area_state (areas w) k) (key it) = Throw e →
  hasValue it w = (Normal false, w) ∧
  getValue it w = (Normal (defaultValue it), w).
Proof.
  intros Ha Hg.
  pose proof (host_read_throws_no_value it w k e Ha Hg) as Hs.
  rewrite hasValue_run, getValue_run. unfold resolved_value. rewrite Hs. done.
Qed.

Lemma read_failure_is_absent_value_witness :
  hasValue managed_item browser_with_storage = (Normal false, browser_with_storage) ∧
  getValue managed_item browser_with_storage =
    (Normal (defined (JStr "fallback")), browser_with_storage).
Proof.
  apply (read_failure_is_absent_value managed_item browser_with_storage Managed
           (Error "storage area is not initialized")); reflexivity.
Defined.

(** ** The managed area is read-only *)

Lemma managed_writes_throw (it : StorageItem) (v : JsVal) (w : World) :
  areaName it = AREA_MANAGED →
  setValue it v w = (Throw (Error "Cannot set managed storage"), w) ∧
  clearValue it w = (Throw (Error "Cannot clear managed storage"), w).
Proof.
  intros Hn. unfold setValue, clearValue. rewrite Hn. done.
Qed.

Lemma new_StorageItem_managed_name (key : string) (d : JsVal) (w w' : World)
    (it : StorageItem) :
  new_StorageItem key d AREA_MANAGED w = (Normal it, w') → areaName it = AREA_MANAGED.
Proof. intros H. by destruct (new_StorageItem_fields _ _ _ _ _ _ H) as (_ & _ & ? & _). Qed.

(** C6: on an item of the managed area [setValue] and [clearValue] throw the
    not-permitted error, and the world, the store included, is as it was. *)
Theorem managed_item_is_read_only (it : StorageItem) (v : JsVal) (w : World) :
  areaName it = AREA_MANAGED →
  setValue it v w = (Throw (Error "Cannot set managed storage"), w) ∧
  clearValue it w = (Throw (Error "Cannot clear managed storage"), w).
Proof.
  intros Hn. split.
  - unfold setValue. rewrite (bool_decide_eq_true_2 _ Hn). reflexivity.
  - unfold clearValue. rewrite (bool_decide_eq_true_2 _ Hn). reflexivity.
Qed.

Lemma managed_item_is_read_only_witness :
  setValue managed_item (defined (JNum 1)) browser_with_storage =
    (Throw (Error "Cannot set managed storage"), browser_with_storage) ∧
  clearValue managed_item browser_with_storage =
    (Throw (Error "Cannot clear managed storage"), browser_with_storage).
Proof.
  apply (managed_item_is_read_only managed_item (defined (JNum 1)) browser_with_storage).
  reflexivity.
Defined.

(** C9: the managed check comes before the degraded-mode check.  Without the
    storage API the constructor still returns an item for the managed area,
    bound to no area object, and [setValue] and [clearValue] on it throw the
    not-permitted error instead of doing nothing. *)
Theorem managed_check_precedes_degraded_mode (key : string) (d : JsVal) (w : World) :
  browser_storage w = false →
  ∃ it w',
    new_StorageItem key d AREA_MANAGED w = (Normal it, w') ∧
    area it = None ∧
    ∀ (v : JsVal) (w2 : World),
      setValue it v w2 = (Throw (Error "Cannot set managed storage"), w2) ∧
      clearValue it w2 = (Throw (Error "Cannot clear managed storage"), w2).
Proof.
  intros Hb. rewrite new_StorageItem_run, Hb.
  eexists _, _. split; [reflexivity|]. split; [reflexivity|].
  intros v w2. by apply managed_writes_throw.
Qed.

Lemma managed_check_precedes_degraded_mode_witness :
  ∃ it w',
    new_StorageItem "policy" undefined AREA_MANAGED browser_without_storage = (Normal it, w') ∧
    area it = None ∧
    ∀ (v : JsVal) (w2 : World),
      setValue it v w2 = (Throw (Error "Cannot set managed storage"), w2) ∧
      clearValue it w2 = (Throw (Error "Cannot clear managed storage"), w2).
Proof.
  apply (managed_check_precedes_degraded_mode "policy" undefined browser_without_storage).
  reflexivity.
Defined.

(** ** The filter of the change listener *)

Lemma passing_value_own (it : StorageItem) (changes : gmap string StorageChange)
    (change : StorageChange) :
  changes !! key it = Some change →
  passing_value it changes = Some (notified_value it change).
Proof. intros Hc. unfold passing_value, get_property. by rewrite Hc. Qed.

Lemma passing_value_not_own (it : StorageItem) (changes : gmap string StorageChange) :
  changes !! key it = None →
  passing_value it changes = if inherited (key it) then Some (defaultValue it) else None.
Proof.
  intros Hc. unfold passing_value, get_property. rewrite Hc.
  by destruct (inherited (key it)).
Qed.

(** A notification for another area, or one in which the item's key is not
    found, makes the listener return at once. *)
Lemma changeListener_filtered
    (it : StorageItem) (changes : gmap string StorageChange) (area_name : string)
    (w : World) :
  area_name ≠ areaName it ∨ passing_value it changes = None →
  changeListener it changes area_name w = (Normal tt, w).
Proof.
  intros H. unfold changeListener, has_property.
  unfold passing_value in H.
  destruct (get_property changes (key it)) as [change|name|] eqn:Hp; cbn [negb].
  - destruct H as [Hne|?]; [|done]. by rewrite (bool_decide_eq_false_2 _ Hne).
  - destruct H as [Hne|?]; [|done]. by rewrite (bool_decide_eq_false_2 _ Hne).
  - reflexivity.
Qed.

(** What of the filter holds: for a key that names no member of
    [Object.prototype], a notification for another area, or one whose
    changes do not contain the key, dispatches nothing. *)
Lemma ordinary_key_unrelated_change_dispatches_nothing
    (it : StorageItem) (changes : gmap string StorageChange) (area_name : string)
    (w : World) :
  area_name ≠ areaName it ∨ (changes !! key it = None ∧ inherited (key it) = false) →
  changeListener it changes area_name w = (Normal tt, w).
Proof.
  intros [Hne|[Hc Hk]]; apply changeListener_filtered; [by left|right].
  by rewrite (passing_value_not_own it changes Hc), Hk.
Qed.

(** ** The effective value *)

(** What of the effective value holds: under a key that names no member
    of [Object.prototype], or when a value is stored, [getValue] is
    fulfilled with the stored value if there is one and with the default
    otherwise; for such a key and the local or the sync area with nothing
    stored, the item the constructor returns gives its default. *)
Lemma getValue_is_effective_value_for_ordinary_keys :
  (∀ (it : StorageItem) (w : World),
     inherited (key it) = false ∨ is_Some (stored_value w it) →
     getValue it w =
     (Normal (match stored_value w it with
              | Some j => defined j
              | None => defaultValue it
              end), w)) ∧
  (∀ (key : string) (d : JsVal) (a : string) (w : World),
     inherited key = false →
     a = AREA_LOCAL ∨ a = AREA_SYNC →
     (∀ k, area_kind a = Some k → stored_in (areas w) k key = None) →
     ∃ it w', new_StorageItem key d a w = (Normal it, w') ∧
              getValue it w' = (Normal d, w')).
Proof.
  split.
  { intros it w H. by rewrite getValue_run, (resolved_value_effective it w H). }
  intros key d a w Hord Ha Hfree.
  assert (∃ k, area_kind a = Some k) as [k Hk]
    by (destruct Ha as [-> | ->]; eexists; reflexivity).
  destruct (new_StorageItem key d a w) as [[it|e] w'] eqn:Hnew.
  - exists it, w'. split; [reflexivity|].
    destruct (new_StorageItem_fields _ _ _ _ _ _ Hnew) as (Hkey & Hd & _ & Harea & Hst).
    rewrite getValue_run, resolved_value_effective by (left; by rewrite Hkey).
    unfold effective_value, stored_value.
    rewrite Harea, Hst, Hkey, Hd.
    destruct (browser_storage w); [|reflexivity].
    rewrite Hk, (Hfree k Hk). reflexivity.
  - rewrite new_StorageItem_run, Hk in Hnew.
    destruct (browser_storage w); discriminate.
Qed.

(** C8, on the code: [data[this.key]] also finds what the answer of the
    host inherits from [Object.prototype].  For an item bound to an area
    the host serves, whose key names such a member and under which nothing
    is stored, [hasValue] is fulfilled with [true] and [getValue] with that
    member, not with the default. *)
Theorem inherited_key_is_read_as_a_value
    (it : StorageItem) (k : AreaKind) (items : gmap string Json) (w : World) :
  area it = Some k →
  area_state (areas w) k = Ready items →
  items !! key it = None →
  inherited (key it) = true →
  stored_value w it = None ∧
  hasValue it w = (Normal true, w) ∧
  getValue it w = (Normal (defined (JProto (key it))), w).
Proof.
  intros Ha Hst Hnone Hk.
  assert (raw_value w it = defined (JProto (key it))) as Hraw.
  { unfold raw_value. by rewrite Ha, Hst, Hnone, Hk. }
  split; [unfold stored_value, stored_in; by rewrite Ha, Hst|].
  rewrite hasValue_run, getValue_run. unfold resolved_value. by rewrite Hraw.
Qed.

Lemma inherited_key_is_read_as_a_value_witness :
  stored_value browser_with_storage constructor_item = None ∧
  hasValue constructor_item browser_with_storage = (Normal true, browser_with_storage) ∧
  getValue constructor_item browser_with_storage =
    (Normal (defined (JProto "constructor")), browser_with_storage).
Proof.
  apply (inherited_key_is_read_as_a_value constructor_item Local ∅ browser_with_storage);
    reflexivity.
Defined.

(** The same from the outside: a fresh item for the key [constructor], with
    the default [fallback] and nothing stored, does not give its default. *)
Lemma constructor_item_does_not_give_its_default :
  ((it ← new_StorageItem "constructor" (defined (JStr "fallback")) "local";
    getValue it) browser_with_storage).1 = Normal (defined (JProto "constructor")).
Proof. vm_compute. reflexivity. Qed.

(** ** Writing and reading back *)

Lemma area_state_with_area (st : Storage) (k : AreaKind) (a : AreaState) :
  area_state (with_area st k a) k = a.
Proof. destruct k; reflexivity. Qed.

(** What a read finds once the item's area has been given the contents
    [items]. *)
Lemma raw_value_after_write (it : StorageItem) (k : AreaKind)
    (items : gmap string Json) (st : Storage) (w : World) :
  area it = Some k →
  raw_value (set_areas (with_area st k (Ready items)) w) it =
  match items !! key it with
  | Some j => defined j
  | None => if inherited (key it) then defined (JProto (key it)) else undefined
  end.
Proof.
  intros Ha. unfold raw_value. rewrite Ha. cbn [areas set_areas].
  by rewrite area_state_with_area.
Qed.

Lemma setValue_run (it : StorageItem) (k : AreaKind) (v : JsVal) (w : World) :
  areaName it ≠ AREA_MANAGED →
  area it = Some k →
  setValue it v w = host_set k (key it) v w.
Proof.
  intros Hn Ha. unfold setValue. rewrite Ha.
  by rewrite (bool_decide_eq_false_2 _ Hn).
Qed.

Lemma clearValue_run (it : StorageItem) (k : AreaKind) (w : World) :
  areaName it ≠ AREA_MANAGED →
  area it = Some k →
  clearValue it w = host_remove k (key it) w.
Proof.
  intros Hn Ha. unfold clearValue. rewrite Ha.
  by rewrite (bool_decide_eq_false_2 _ Hn).
Qed.

(** C5 as stated fails: [undefined] is a value of an unconstrained [T], and
    [getValue] takes [undefined] for the absence of a value, so after
    [setValue(undefined)] it is fulfilled with the default. *)
Lemma roundtrip_fails_for_undefined :
  ¬ (∀ (key : string) (d : JsVal) (a : string) (w w1 w2 : World)
       (it : StorageItem) (v : JsVal),
       a = AREA_LOCAL ∨ a = AREA_SYNC →
       browser_storage w = true →
       new_StorageItem key d a w = (Normal it, w1) →
       (∀ k, area_kind a = Some k → area_state (areas w2) k ≠ Uninitialized) →
       ∃ w3, setValue it v w2 = (Normal tt, w3) ∧
             getValue it w3 = (Normal v, w3)).
Proof.
  intros H.
  destruct (H "theme" (defined (JStr "light")) "local"
              browser_with_storage constructed_world constructed_world
              local_item undefined)
    as (w3 & Hset & Hget).
  - left. reflexivity.
  - reflexivity.
  - vm_compute. reflexivity.
  - intros k Hk. vm_compute in Hk. injection Hk as <-. discriminate.
  - vm_compute in Hset. injection Hset as <-.
    vm_compute in Hget. discriminate.
Qed.

(** C5, amended: for every value [v] other than [undefined] and every item
    the constructor returns for the local or the sync area with the storage
    API available, when the host serves the area, [setValue(v)] succeeds and
    a [getValue] that follows it is fulfilled with [v]. *)
Theorem setValue_getValue_roundtrip
    (key : string) (d : JsVal) (a : string) (w w1 w2 : World)
    (it : StorageItem) (j : Json) :
  a = AREA_LOCAL ∨ a = AREA_SYNC →
  browser_storage w = true →
  new_StorageItem key d a w = (Normal it, w1) →
  (∀ k, area_kind a = Some k → area_state (areas w2) k ≠ Uninitialized) →
  ∃ w3, setValue it (defined j) w2 = (Normal tt, w3) ∧
        getValue it w3 = (Normal (defined j), w3).
Proof.
  intros Ha Hb Hnew Hready.
  destruct (new_StorageItem_fields _ _ _ _ _ _ Hnew) as (_ & _ & Hname & Harea & _).
  rewrite Hb in Harea.
  assert (∃ k, area_kind a = Some k) as [k Hk]
    by (destruct Ha as [-> | ->]; eexists; reflexivity).
  rewrite Hk in Harea.
  assert (areaName it ≠ AREA_MANAGED) as Hn
    by (rewrite Hname; destruct Ha as [-> | ->]; discriminate).
  specialize (Hready k Hk).
  rewrite (setValue_run it k _ w2 Hn Harea). unfold host_set.
  destruct (area_state (areas w2) k) as [|items] eqn:Hst; [done|].
  cbn. eexists. split; [reflexivity|].
  rewrite getValue_run. unfold resolved_value.
  by rewrite (raw_value_after_write it k _ _ w2 Harea), lookup_insert_eq.
Qed.

Lemma setValue_getValue_roundtrip_witness :
  ∃ w3,
    setValue local_item (defined (JStr "dark")) constructed_world = (Normal tt, w3) ∧
    getValue local_item w3 = (Normal (defined (JStr "dark")), w3).
Proof.
  apply (setValue_getValue_roundtrip "theme" (defined (JStr "light")) "local"
           browser_with_storage constructed_world).
  - left. reflexivity.
  - reflexivity.
  - vm_compute. reflexivity.
  - intros k Hk. vm_compute in Hk. injection Hk as <-. discriminate.
Defined.

(** ** Dispatch to the observers *)

Lemma calls_of_app (id : nat) (l1 l2 : list Event) :
  calls_of id (l1 ++ l2) = calls_of id l1 ++ calls_of id l2.
Proof. apply omap_app. Qed.

Lemma calls_of_invoked (id c : nat) (v : JsVal) (l : list Event) :
  calls_of id (invoked c v :: l) =
  if Nat.eqb c id then v :: calls_of id l else calls_of id l.
Proof. unfold calls_of. cbn. by destruct (Nat.eqb c id). Qed.

Lemma set_log_set_log (l l' : list Event) (w : World) :
  set_log l (set_log l' w) = set_log l w.
Proof. reflexivity. Qed.

Lemma set_log_log (w : World) : set_log (log w) w = w.
Proof. by destruct w. Qed.

Lemma forEach_call_run (v : JsVal) (l : list Callback) (w : World) :
  forEach l (λ o, call o v) w =
  (match first_thrown v l with Some e => Throw e | None => Normal tt end,
   set_log (log w ++ map (λ o, invoked (cb_id o) v) (reached v l)) w).
Proof.
  revert w. induction l as [|cb l IH]; intros w.
  - cbn. by rewrite app_nil_r, set_log_log.
  - cbn [forEach reached first_thrown map]. rewrite bind_run.
    unfold call at 1. rewrite bind_run. unfold emit at 1.
    destruct (cb_body cb v) as [e|].
    + reflexivity.
    + rewrite ret_run, IH. cbn [log set_log].
      rewrite set_log_set_log, <- app_assoc. reflexivity.
Qed.

(** What the listener does with a notification that passes its filter: one
    dispatch to the sink, then the observers in insertion order up to the
    first that throws, whose exception is logged. *)
Lemma changeListener_passes (it : StorageItem) (changes : gmap string StorageChange)
    (v : JsVal) (w : World) :
  passing_value it changes = Some v →
  changeListener it changes (areaName it) w =
  (Normal tt,
   set_log (log w ++
            sink_dispatched (this it) v ::
            map (λ o, invoked (cb_id o) v) (reached v (observers_of w it)) ++
            match first_thrown v (observers_of w it) with
            | Some e => [console_error e]
            | None => []
            end) w).
Proof.
  intros Hp. unfold changeListener, has_property. unfold passing_value in Hp.
  rewrite (bool_decide_eq_true_2 _ (eq_refl (areaName it))).
  assert (∀ value,
            (emit (sink_dispatched (this it) value);;
             try_catch
               (obs ← gets (λ w, observers_of w it);
                forEach obs (λ observer, call observer value))
               (λ e, emit (console_error e))) w =
            (Normal tt,
             set_log (log w ++
                      sink_dispatched (this it) value ::
                      map (λ o, invoked (cb_id o) value)
                          (reached value (observers_of w it)) ++
                      match first_thrown value (observers_of w it) with
                      | Some e => [console_error e]
                      | None => []
                      end) w)) as Hbody.
  { intros value. rewrite bind_run. unfold emit at 1. unfold try_catch.
    rewrite bind_run. unfold gets at 1. rewrite forEach_call_run.
    change (observers_of (set_log _ w) it) with (observers_of w it).
    destruct (first_thrown _ _) as [e|]; cbn [log set_log].
    - unfold emit. cbn [log set_log]. rewrite !set_log_set_log.
      by rewrite <- !app_assoc.
    - rewrite !set_log_set_log, app_nil_r. by rewrite <- !app_assoc. }
  destruct (get_property changes (key it)) as [change|name|]; [| |done];
    injection Hp as <-; cbn [negb newValue_of]; apply Hbody.
Qed.

Lemma changeListener_run (it : StorageItem) (changes : gmap string StorageChange)
    (change : StorageChange) (w : World) :
  changes !! key it = Some change →
  changeListener it changes (areaName it) w =
  (Normal tt,
   set_log (log w ++
            sink_dispatched (this it) (notified_value it change) ::
            map (λ o, invoked (cb_id o) (notified_value it change))
                (reached (notified_value it change) (observers_of w it)) ++
            match first_thrown (notified_value it change) (observers_of w it) with
            | Some e => [console_error e]
            | None => []
            end) w).
Proof. intros Hc. apply changeListener_passes. by apply passing_value_own. Qed.

(** The listener never throws, whatever the observers do. *)
Lemma changeListener_returns (it : StorageItem) (changes : gmap string StorageChange)
    (area_name : string) (w : World) :
  (changeListener it changes area_name w).1 = Normal tt.
Proof.
  destruct (passing_value it changes) as [v|] eqn:Hp.
  - destruct (decide (area_name = areaName it)) as [->|Hne].
    + by rewrite (changeListener_passes _ _ _ _ Hp).
    + rewrite changeListener_filtered; [done|by left].
  - rewrite changeListener_filtered; [done|by right].
Qed.

(** C7, on the code: [this.key in changes] and [changes[this.key]] also
    find what the [changes] object inherits from [Object.prototype].  For
    an item whose key names such a member, a notification for the item's
    area whose changes do not contain the key passes the filter: the
    default is dispatched to the sink and to the observers, as if the key
    had been removed. *)
Theorem inherited_key_passes_the_filter
    (it : StorageItem) (changes : gmap string StorageChange) (w : World) :
  inherited (key it) = true →
  changes !! key it = None →
  changeListener it changes (areaName it) w =
  (Normal tt,
   set_log (log w ++
            sink_dispatched (this it) (defaultValue it) ::
            map (λ o, invoked (cb_id o) (defaultValue it))
                (reached (defaultValue it) (observers_of w it)) ++
            match first_thrown (defaultValue it) (observers_of w it) with
            | Some e => [console_error e]
            | None => []
            end) w).
Proof.
  intros Hk Hc. apply changeListener_passes.
  by rewrite (passing_value_not_own it changes Hc), Hk.
Qed.

Lemma inherited_key_passes_the_filter_witness :
  changeListener toString_item theme_changed "local" inherited_key_world =
  (Normal tt,
   set_log [sink_dispatched 0 (defined (JStr "fallback"));
            invoked (cb_id quiet) (defined (JStr "fallback"))]
           inherited_key_world).
Proof.
  apply (inherited_key_passes_the_filter toString_item theme_changed inherited_key_world);
    reflexivity.
Defined.

(** The same from the outside: an item for the key [toString] is
    constructed and observed, and the host reports a change of the theme. *)
Lemma toString_item_notified_of_another_key :
  log ((it ← new_StorageItem "toString" (defined (JStr "fallback")) "local";
        observe it quiet false;;
        onChanged_fire theme_changed "local") browser_with_storage).2 =
  [sink_dispatched 0 (defined (JStr "fallback"));
   invoked (cb_id quiet) (defined (JStr "fallback"))].
Proof. vm_compute. reflexivity. Qed.

Lemma reached_throws (v : JsVal) (pre post : list Callback) (cb : Callback) (e : JsError) :
  Forall (λ c, cb_body c v = None) pre →
  cb_body cb v = Some e →
  reached v (pre ++ cb :: post) = pre ++ [cb] ∧
  first_thrown v (pre ++ cb :: post) = Some e.
Proof.
  intros Hpre Hcb. induction Hpre as [|c pre Hc _ [IH1 IH2]]; cbn.
  - by rewrite Hcb.
  - by rewrite Hc, IH1, IH2.
Qed.

(** When an observer throws, the listener catches and logs the exception,
    and the [forEach] it interrupted does not resume: the observers that
    come after the one that threw are not called. *)
Lemma throwing_observer_ends_the_iteration
    (it : StorageItem) (changes : gmap string StorageChange) (change : StorageChange)
    (w : World) (pre post : list Callback) (cb : Callback) (e : JsError) :
  changes !! key it = Some change →
  observers_of w it = pre ++ cb :: post →
  Forall (λ c, cb_body c (notified_value it change) = None) pre →
  cb_body cb (notified_value it change) = Some e →
  changeListener it changes (areaName it) w =
  (Normal tt,
   set_log (log w ++
            sink_dispatched (this it) (notified_value it change) ::
            map (λ o, invoked (cb_id o) (notified_value it change)) (pre ++ [cb]) ++
            [console_error e]) w).
Proof.
  intros Hc Hobs Hpre Hcb.
  rewrite (changeListener_run _ _ _ _ Hc), Hobs.
  destruct (reached_throws _ pre post cb e Hpre Hcb) as [-> ->]. reflexivity.
Qed.

(** When no observer throws, every observer is called, in insertion order. *)
Lemma quiet_observers_all_called
    (it : StorageItem) (changes : gmap string StorageChange) (change : StorageChange)
    (w : World) :
  changes !! key it = Some change →
  Forall (λ c, cb_body c (notified_value it change) = None) (observers_of w it) →
  changeListener it changes (areaName it) w =
  (Normal tt,
   set_log (log w ++
            sink_dispatched (this it) (notified_value it change) ::
            map (λ o, invoked (cb_id o) (notified_value it change)) (observers_of w it)) w).
Proof.
  intros Hc Hall. rewrite (changeListener_run _ _ _ _ Hc).
  assert (reached (notified_value it change) (observers_of w it) = observers_of w it ∧
          first_thrown (notified_value it change) (observers_of w it) = None) as [-> ->].
  { induction Hall as [|c l Hcq _ [IH1 IH2]]; cbn; [done|]. by rewrite Hcq, IH1, IH2. }
  by rewrite app_nil_r.
Qed.

(** The calls a [forEach] over [l] makes never go to a callback that is not
    in [l]. *)
Lemma unregistered_not_called (c : Callback) (v : JsVal) (l : list Callback) :
  registered c l = false →
  calls_of (cb_id c) (map (λ o, invoked (cb_id o) v) l) = [].
Proof.
  unfold registered. induction l as [|o l IH]; [done|].
  cbn [existsb map]. intros [Ho Hl]%orb_false_elim.
  unfold same_callback in Ho. rewrite calls_of_invoked, Ho. by apply IH.
Qed.

(** C1, on the code: the [try] encloses the whole [forEach], not each call.
    When the observers are [pre], then [cb], then [post], those of [pre]
    return and [cb] throws [e], a matching notification reaches the sink,
    [pre] and [cb]; [e] is caught and logged and the listener returns; the
    observers of [post], still registered, are not called. *)
Theorem throwing_observer_starves_later_observers
    (it : StorageItem) (changes : gmap string StorageChange) (change : StorageChange)
    (w : World) (pre post : list Callback) (cb : Callback) (e : JsError) :
  changes !! key it = Some change →
  observers_of w it = pre ++ cb :: post →
  Forall (λ c, cb_body c (notified_value it change) = None) pre →
  cb_body cb (notified_value it change) = Some e →
  (changeListener it changes (areaName it) w).1 = Normal tt ∧
  log (changeListener it changes (areaName it) w).2 =
    log w ++
    sink_dispatched (this it) (notified_value it change) ::
    map (λ o, invoked (cb_id o) (notified_value it change)) (pre ++ [cb]) ++
    [console_error e] ∧
  ∀ c, c ∈ post → registered c (pre ++ [cb]) = false →
       calls_of (cb_id c) (log (changeListener it changes (areaName it) w).2) =
       calls_of (cb_id c) (log w).
Proof.
  intros Hc Hobs Hpre Hcb.
  rewrite (throwing_observer_ends_the_iteration _ _ _ _ _ _ _ _ Hc Hobs Hpre Hcb).
  cbn [fst snd log set_log]. split; [done|]. split; [done|].
  intros c _ Hreg.
  change (?x :: ?l ++ ?r) with ([x] ++ l ++ r).
  rewrite !calls_of_app, (unregistered_not_called c _ _ Hreg). cbn.
  by rewrite app_nil_r.
Qed.

Lemma throwing_observer_starves_later_observers_witness :
  calls_of (cb_id quiet)
    (log (changeListener local_item theme_changed "local" watched_world).2) = [].
Proof.
  refine (proj2 (proj2 (throwing_observer_starves_later_observers
                          local_item theme_changed
                          (mkChange undefined (defined (JStr "dark")))
                          watched_world [] [quiet] noisy (Error "observer failed")
                          _ _ _ _)) quiet _ _).
  - reflexivity.
  - reflexivity.
  - constructor.
  - reflexivity.
  - apply list_elem_of_here.
  - reflexivity.
Defined.

(** The same from the outside: an item is constructed, [noisy] and then
    [quiet] are registered, and the host raises a matching notification. *)
Lemma two_observers_notified_log :
  (two_observers_notified browser_with_storage).1 = Normal tt ∧
  observers_of (two_observers_notified browser_with_storage).2 local_item = [noisy; quiet] ∧
  log (two_observers_notified browser_with_storage).2 =
    [sink_dispatched 0 (defined (JStr "dark"));
     invoked (cb_id noisy) (defined (JStr "dark"));
     console_error (Error "observer failed")] ∧
  calls_of (cb_id quiet) (log (two_observers_notified browser_with_storage).2) = [].
Proof. vm_compute. done. Qed.

(** ** Observing and unobserving *)

Lemma registered_Set_delete (cb : Callback) (l : list Callback) :
  registered cb (Set_delete cb l) = false.
Proof.
  unfold registered, Set_delete. induction l as [|c l IH]; [done|].
  cbn. destruct (same_callback cb c) eqn:E; cbn; [done|]. by rewrite E.
Qed.


(** The calls a [forEach] over [l] makes never go to a callback that is not
    in [l]. *)
Lemma unregistered_not_reached (cb : Callback) (v : JsVal) (l : list Callback) :
  registered cb l = false →
  calls_of (cb_id cb) (map (λ o, invoked (cb_id o) v) (reached v l)) = [].
Proof.
  unfold registered. induction l as [|c l IH]; [done|].
  cbn [existsb reached map]. intros [Hc Hl]%orb_false_elim.
  unfold same_callback in Hc. rewrite calls_of_invoked, Hc.
  destruct (cb_body c v); [done|]. by apply IH.
Qed.

(** A change notification never calls a callback that is not in the item's
    observer set. *)
Lemma unregistered_not_notified (it : StorageItem) (cb : Callback)
    (changes : gmap string StorageChange) (area_name : string) (w : World) :
  registered cb (observers_of w it) = false →
  calls_of (cb_id cb) (log (changeListener it changes area_name w).2) =
  calls_of (cb_id cb) (log w).
Proof.
  intros Hreg.
  destruct (passing_value it changes) as [v|] eqn:Hp;
    [destruct (decide (area_name = areaName it)) as [->|Hne]|].
  - rewrite (changeListener_passes _ _ _ _ Hp). cbn [snd log set_log].
    rewrite calls_of_app. change (?x :: ?l ++ ?r) with ([x] ++ l ++ r).
    rewrite !calls_of_app, unregistered_not_reached by done.
    destruct (first_thrown _ _); cbn; by rewrite app_nil_r.
  - rewrite changeListener_filtered; [done|by left].
  - rewrite changeListener_filtered; [done|by right].
Qed.

Lemma observers_of_update (it : StorageItem) (l : list Callback)
    (o : gmap nat (list Callback)) (w : World) :
  observers_of (set_observers (<[ this it := l ]> o) w) it = l.
Proof. unfold observers_of. cbn. by rewrite lookup_insert_eq. Qed.

Lemma observe_run (it : StorageItem) (cb : Callback) (report : bool) (w : World) :
  observe it cb report w =
  (Normal tt,
   set_observers (<[ this it := Set_add cb (observers_of w it) ]> (observers w))
     (if report
      then set_microtasks (microtasks w ++ [mkTask cb (resolved_value w it)]) w
      else w)).
Proof.
  unfold observe, observers_update. rewrite bind_run.
  destruct report; [unfold then_; rewrite getValue_run|]; reflexivity.
Qed.

Lemma unobserve_run (it : StorageItem) (cb : Callback) (w : World) :
  unobserve it cb w =
  (Normal tt,
   set_observers (<[ this it := Set_delete cb (observers_of w it) ]> (observers w)) w).
Proof. reflexivity. Qed.

Lemma reactions_run (ts : list Task) (w : World) :
  forEach ts (λ t, try_catch (call (task_callback t) (task_value t))
                             (λ e, emit (uncaught e))) w =
  (Normal tt, set_log (log w ++ concat (map reaction_events ts)) w).
Proof.
  revert w. induction ts as [|t ts IH]; intros w.
  - cbn. by rewrite app_nil_r, set_log_log.
  - cbn [forEach map concat]. rewrite bind_run.
    unfold try_catch at 1, call at 1. rewrite bind_run. unfold emit at 1.
    unfold reaction_events.
    destruct (cb_body (task_callback t) (task_value t)) as [e|].
    + unfold throw, emit. cbn [log set_log]. rewrite IH. cbn [log set_log].
      rewrite !set_log_set_log. do 2 f_equal. by rewrite <- !app_assoc.
    + rewrite ret_run, IH. cbn [log set_log].
      rewrite !set_log_set_log. do 2 f_equal. by rewrite <- !app_assoc.
Qed.

(** The pending reactions run, oldest first: each callback is called; what
    it throws is nobody's to catch. *)
Lemma run_microtasks_run (w : World) :
  run_microtasks w =
  (Normal tt,
   set_log (log w ++ concat (map reaction_events (microtasks w)))
           (set_microtasks [] w)).
Proof.
  unfold run_microtasks. rewrite bind_run. unfold gets at 1.
  rewrite bind_run. unfold modify at 1. by rewrite reactions_run.
Qed.

(** C10, on the code: [observe(cb, true)] followed by [unobserve(cb)] while
    the report of the current value is still pending does not cancel the
    report.  When the pending reactions run, [cb] is called exactly once
    more than it would have been without the two calls, after the
    reactions that were pending before; it is no longer in the observer
    set, and no change notification calls it.  The value it is called with
    is the one [getValue] is fulfilled with: the effective value under a
    key that names no member of [Object.prototype] or when a value is
    stored, and otherwise the inherited member instead of the default. *)
Theorem unobserve_does_not_cancel_initial_report
    (it : StorageItem) (cb : Callback) (w : World) :
  let run := (observe it cb true;; unobserve it cb;; run_microtasks) w in
  run.1 = Normal tt ∧
  calls_of (cb_id cb) (log run.2) =
    calls_of (cb_id cb) (log (run_microtasks w).2) ++ [resolved_value w it] ∧
  getValue it w = (Normal (resolved_value w it), w) ∧
  (inherited (key it) = false ∨ is_Some (stored_value w it) →
   resolved_value w it = effective_value w it) ∧
  microtasks run.2 = [] ∧
  registered cb (observers_of run.2 it) = false ∧
  ∀ (changes : gmap string StorageChange) (area_name : string),
    calls_of (cb_id cb) (log (changeListener it changes area_name run.2).2) =
    calls_of (cb_id cb) (log run.2).
Proof.
  intros run. subst run.
  erewrite bind_normal by apply observe_run.
  erewrite bind_normal by apply unobserve_run.
  rewrite observers_of_update, !run_microtasks_run.
  cbn [fst snd log set_log set_observers set_microtasks microtasks].
  match goal with
  | |- context [observers_of ?w' it] =>
      assert (registered cb (observers_of w' it) = false) as Hreg
        by (unfold observers_of; cbn; rewrite lookup_insert_eq;
            apply registered_Set_delete)
  end.
  split; [done|]. split.
  { rewrite map_app, concat_app, app_assoc, calls_of_app. f_equal.
    cbn [map concat]. rewrite app_nil_r. unfold reaction_events.
    cbn [task_callback task_value].
    rewrite calls_of_invoked, Nat.eqb_refl. f_equal.
    by destruct (cb_body cb _). }
  split; [apply getValue_run|]. split; [apply resolved_value_effective|].
  split; [done|]. split; [done|].
  intros; by apply unregistered_not_notified.
Qed.

Lemma unobserve_does_not_cancel_initial_report_witness :
  calls_of 7 (log ((observe constructor_item probe true;;
                    unobserve constructor_item probe;;
                    run_microtasks) inherited_key_world).2) =
    [defined (JProto "constructor")] ∧
  effective_value inherited_key_world constructor_item = defined (JStr "fallback").
Proof.
  split; [|reflexivity].
  etrans; [exact (proj1 (proj2 (unobserve_does_not_cancel_initial_report
                                  constructor_item probe inherited_key_world)))|].
  vm_compute. reflexivity.
Defined.

(** On an item with an ordinary key the report brings the effective value. *)
Lemma initial_report_of_an_ordinary_key :
  calls_of 7 (log ((observe local_item probe true;;
                    unobserve local_item probe;;
                    run_microtasks) constructed_world).2) =
  [defined (JStr "light")].
Proof. vm_compute. reflexivity. Qed.

(** * Further properties of the code *)

(** ** Clearing, overwriting and the existence check *)

Lemma area_state_with_area_ne (st : Storage) (k k' : AreaKind) (a : AreaState) :
  k ≠ k' → area_state (with_area st k a) k' = area_state st k'.
Proof. by destruct k, k'. Qed.

(** X1: on an item that is not of the managed area and is bound to an area
    the host serves, [clearValue] succeeds and removes the stored value,
    logs nothing and changes no observer set.  Afterwards, under a key that
    names no member of [Object.prototype], [hasValue] is fulfilled with
    [false] and [getValue] with the default; under a key that names one,
    the reads find that inherited member: [hasValue] is fulfilled with
    [true] and [getValue] with the member. *)
Theorem clearValue_removes_stored_value (it : StorageItem) (k : AreaKind) (w : World) :
  areaName it ≠ AREA_MANAGED →
  area it = Some k →
  area_state (areas w) k ≠ Uninitialized →
  ∃ w', clearValue it w = (Normal tt, w') ∧
        stored_value w' it = None ∧
        hasValue it w' = (Normal (inherited (key it)), w') ∧
        getValue it w' =
          (Normal (if inherited (key it)
                   then defined (JProto (key it))
                   else defaultValue it), w') ∧
        log w' = log w ∧ observers w' = observers w.
Proof.
  intros Hn Ha Hready.
  rewrite (clearValue_run it k w Hn Ha). unfold host_remove.
  destruct (area_state (areas w) k) as [|items] eqn:Hst; [done|].
  cbn. eexists. split; [reflexivity|]. split.
  { unfold stored_value, stored_in. rewrite Ha. cbn [areas set_areas].
    by rewrite area_state_with_area, lookup_delete_eq. }
  rewrite hasValue_run, getValue_run. unfold resolved_value.
  rewrite (raw_value_after_write it k _ _ w Ha), lookup_delete_eq.
  by destruct (inherited (key it)).
Qed.

Lemma clearValue_removes_stored_value_witness :
  ∃ w', clearValue font_item browser_with_settings = (Normal tt, w') ∧
        stored_value w' font_item = None ∧
        hasValue font_item w' = (Normal false, w') ∧
        getValue font_item w' = (Normal (defined (JNum 10)), w') ∧
        log w' = log browser_with_settings ∧
        observers w' = observers browser_with_settings.
Proof.
  destruct (clearValue_removes_stored_value font_item Local browser_with_settings)
    as (w' & Hclear & Hstored & Hhas & Hget & Hlog & Hobs).
  - discriminate.
  - reflexivity.
  - discriminate.
  - exists w'. repeat split; assumption.
Defined.

(** X2: on such an item, after [setValue(v)] with [v] other than
    [undefined], [hasValue] is fulfilled with [true]. *)
Theorem setValue_then_hasValue (it : StorageItem) (k : AreaKind) (j : Json) (w : World) :
  areaName it ≠ AREA_MANAGED →
  area it = Some k →
  area_state (areas w) k ≠ Uninitialized →
  ∃ w', setValue it (defined j) w = (Normal tt, w') ∧
        hasValue it w' = (Normal true, w').
Proof.
  intros Hn Ha Hready.
  rewrite (setValue_run it k _ w Hn Ha). unfold host_set.
  destruct (area_state (areas w) k) as [|items] eqn:Hst; [done|].
  cbn. eexists. split; [reflexivity|].
  by rewrite hasValue_run, (raw_value_after_write it k _ _ w Ha), lookup_insert_eq.
Qed.

Lemma setValue_then_hasValue_witness :
  ∃ w', setValue sync_item (defined (JStr "dark")) browser_with_storage = (Normal tt, w') ∧
        hasValue sync_item w' = (Normal true, w').
Proof.
  apply (setValue_then_hasValue sync_item Sync (JStr "dark") browser_with_storage).
  - discriminate.
  - reflexivity.
  - discriminate.
Defined.

(** X3: the last write wins.  After [setValue(v1)] and then [setValue(v2)],
    both other than [undefined], [getValue] is fulfilled with [v2], whatever
    was stored before. *)
Theorem setValue_overwrites (it : StorageItem) (k : AreaKind) (j1 j2 : Json) (w : World) :
  areaName it ≠ AREA_MANAGED →
  area it = Some k →
  area_state (areas w) k ≠ Uninitialized →
  ∃ w', (setValue it (defined j1);; setValue it (defined j2)) w = (Normal tt, w') ∧
        getValue it w' = (Normal (defined j2), w').
Proof.
  intros Hn Ha Hready. rewrite bind_run.
  rewrite (setValue_run it k _ w Hn Ha). unfold host_set at 1.
  destruct (area_state (areas w) k) as [|items] eqn:Hst; [done|].
  cbn [area_set]. rewrite (setValue_run it k _ _ Hn Ha). unfold host_set.
  cbn [areas set_areas]. rewrite area_state_with_area. cbn [area_set].
  eexists. split; [reflexivity|].
  rewrite getValue_run. unfold resolved_value.
  by rewrite (raw_value_after_write it k _ _ _ Ha), lookup_insert_eq.
Qed.

Lemma setValue_overwrites_witness :
  ∃ w', (setValue font_item (defined (JNum 14));;
         setValue font_item (defined (JNum 16))) browser_with_settings = (Normal tt, w') ∧
        getValue font_item w' = (Normal (defined (JNum 16)), w').
Proof.
  apply (setValue_overwrites font_item Local (JNum 14) (JNum 16) browser_with_settings).
  - discriminate.
  - reflexivity.
  - discriminate.
Defined.

(** ** Degraded mode *)

(** X4: without the storage API the constructor returns, for every area name
    other than managed, an item on which [setValue] and [clearValue] return
    without doing anything, [hasValue] is fulfilled with [false] and
    [getValue] with the default, in every later state of the world. *)
Theorem degraded_item_is_inert (key : string) (d : JsVal) (a : string) (w : World) :
  browser_storage w = false →
  a ≠ AREA_MANAGED →
  ∃ it w',
    new_StorageItem key d a w = (Normal it, w') ∧
    ∀ (v : JsVal) (w2 : World),
      setValue it v w2 = (Normal tt, w2) ∧
      clearValue it w2 = (Normal tt, w2) ∧
      hasValue it w2 = (Normal false, w2) ∧
      getValue it w2 = (Normal d, w2).
Proof.
  intros Hb Ha. rewrite new_StorageItem_run, Hb.
  eexists _, _. split; [reflexivity|]. intros v w2.
  unfold setValue, clearValue. cbn [areaName area].
  rewrite (bool_decide_eq_false_2 _ Ha).
  rewrite hasValue_run, getValue_run. done.
Qed.

Lemma degraded_item_is_inert_witness :
  ∃ it w',
    new_StorageItem "theme" (defined (JStr "light")) "local" browser_without_storage =
      (Normal it, w') ∧
    ∀ (v : JsVal) (w2 : World),
      setValue it v w2 = (Normal tt, w2) ∧
      clearValue it w2 = (Normal tt, w2) ∧
      hasValue it w2 = (Normal false, w2) ∧
      getValue it w2 = (Normal (defined (JStr "light")), w2).
Proof.
  apply (degraded_item_is_inert "theme" (defined (JStr "light")) "local"
           browser_without_storage).
  - reflexivity.
  - discriminate.
Defined.

(** ** What a write leaves alone *)

Lemma raw_value_frame (a b : StorageItem) (k : AreaKind) (s : AreaState) (w : World) :
  area a = Some k →
  (∀ items items', area_state (areas w) k = Ready items → s = Ready items' →
                   key a ≠ key b → items' !! key b = items !! key b) →
  (s = Uninitialized ↔ area_state (areas w) k = Uninitialized) →
  key a ≠ key b ∨ area a ≠ area b →
  raw_value (set_areas (with_area (areas w) k s) w) b = raw_value w b.
Proof.
  intros Ha Hitems Hun Hdiff. unfold raw_value.
  destruct (area b) as [k'|]; [|reflexivity]. cbn [areas set_areas].
  destruct (decide (k = k')) as [<-|Hk].
  - rewrite area_state_with_area.
    destruct Hdiff as [Hkey|Harea]; [|by rewrite Ha in Harea].
    destruct s as [|items'], (area_state (areas w) k) as [|items] eqn:Hst; try done.
    + by pose proof (proj1 Hun eq_refl).
    + by pose proof (proj2 Hun eq_refl).
    + by rewrite (Hitems items items').
  - by rewrite area_state_with_area_ne.
Qed.

(** X5: [setValue] and [clearValue] touch one key of one area.  For an item
    [b] with another key, or bound to another area, or bound to none, what
    [hasValue] and [getValue] of [b] are fulfilled with is the same after a
    write through item [a] as before it. *)
Theorem writes_leave_other_items_alone (a b : StorageItem) (v : JsVal) (w : World) :
  key a ≠ key b ∨ area a ≠ area b →
  (hasValue b (setValue a v w).2).1 = (hasValue b w).1 ∧
  (getValue b (setValue a v w).2).1 = (getValue b w).1 ∧
  (hasValue b (clearValue a w).2).1 = (hasValue b w).1 ∧
  (getValue b (clearValue a w).2).1 = (getValue b w).1.
Proof.
  intros Hdiff.
  assert (raw_value (setValue a v w).2 b = raw_value w b) as Hset.
  { unfold setValue. destruct (bool_decide (areaName a = "managed")); [done|].
    destruct (area a) as [k|] eqn:Ha; [|done].
    unfold host_set, area_set.
    destruct (area_state (areas w) k) as [|items] eqn:Hst; [done|].
    cbn [snd]. apply (raw_value_frame a b); try done.
    - intros items0 items' Hold Hnew Hkey. rewrite Hst in Hold.
      destruct v as [|j]; simplify_eq; [done|]. by rewrite lookup_insert_ne.
    - rewrite Hst. by destruct v.
    - by rewrite Ha. }
  assert (raw_value (clearValue a w).2 b = raw_value w b) as Hclear.
  { unfold clearValue. destruct (bool_decide (areaName a = "managed")); [done|].
    destruct (area a) as [k|] eqn:Ha; [|done].
    unfold host_remove, area_remove.
    destruct (area_state (areas w) k) as [|items] eqn:Hst; [done|].
    cbn [snd]. apply (raw_value_frame a b); try done.
    - intros items0 items' Hold Hnew Hkey. rewrite Hst in Hold. simplify_eq.
      by rewrite lookup_delete_ne.
    - by rewrite Hst.
    - by rewrite Ha. }
  rewrite !hasValue_run, !getValue_run. unfold resolved_value. cbn [fst].
  by rewrite Hset, Hclear.
Qed.

Lemma writes_leave_other_items_alone_witness :
  (getValue font_item (setValue local_item (defined (JStr "light")) browser_with_settings).2).1 =
    Normal (defined (JNum 12)) ∧
  (getValue font_item (clearValue local_item browser_with_settings).2).1 =
    Normal (defined (JNum 12)).
Proof.
  assert (key local_item ≠ key font_item ∨ area local_item ≠ area font_item) as Hdiff
    by (left; discriminate).
  destruct (writes_leave_other_items_alone local_item font_item
              (defined (JStr "light")) browser_with_settings Hdiff)
    as (_ & Hset & _ & Hclear).
  split.
  - etrans; [exact Hset|]. vm_compute. reflexivity.
  - etrans; [exact Hclear|]. vm_compute. reflexivity.
Defined.

(** ** Reads *)

(** X6: the two reads agree and are reads only.  Neither throws nor changes
    the world.  When [hasValue] is fulfilled with [true], [getValue] is
    fulfilled with a value other than [undefined]: the stored value, or,
    with nothing stored under a key that names a member of
    [Object.prototype], that inherited member.  When [hasValue] is
    fulfilled with [false], nothing is stored and [getValue] is fulfilled
    with the default. *)
Theorem hasValue_getValue_agree (it : StorageItem) (w : World) :
  ∃ (b : bool) (v : JsVal),
    hasValue it w = (Normal b, w) ∧
    getValue it w = (Normal v, w) ∧
    (b = true →
     ∃ j, v = defined j ∧
          (stored_value w it = Some j ∨
           (stored_value w it = None ∧ inherited (key it) = true ∧
            j = JProto (key it)))) ∧
    (b = false → v = defaultValue it ∧ stored_value w it = None).
Proof.
  rewrite hasValue_run, getValue_run.
  eexists _, _. split; [reflexivity|]. split; [reflexivity|].
  unfold resolved_value, raw_value, stored_value, stored_in.
  destruct (area it) as [k|]; [|by split].
  destruct (area_state (areas w) k) as [|items]; [by split|].
  destruct (items !! key it) as [j|]; [split; [by eauto|done]|].
  destruct (inherited (key it)); split; try done.
  intros _. eexists. split; [reflexivity|]. by right.
Qed.

(** ** Writes that the host fails *)

(** X7: unlike the reads, the writes do not catch.  On an item that is not
    of the managed area, what the host's [set] or [remove] throws is what
    [setValue] or [clearValue] throws, and the world is as it was. *)
Theorem write_failure_propagates (it : StorageItem) (k : AreaKind) (v : JsVal)
    (w : World) (e : JsError) :
  areaName it ≠ AREA_MANAGED →
  area it = Some k →
  (area_set (area_state (areas w) k) (key it) v = Throw e →
   setValue it v w = (Throw e, w)) ∧
  (area_remove (area_state (areas w) k) (key it) = Throw e →
   clearValue it w = (Throw e, w)).
Proof.
  intros Hn Ha. split; intros Hhost.
  - rewrite (setValue_run it k v w Hn Ha). unfold host_set. by rewrite Hhost.
  - rewrite (clearValue_run it k w Hn Ha). unfold host_remove. by rewrite Hhost.
Qed.

Lemma write_failure_propagates_witness :
  setValue sync_item (defined (JStr "dark")) browser_with_broken_sync =
    (Throw (Error "storage area is not initialized"), browser_with_broken_sync) ∧
  clearValue sync_item browser_with_broken_sync =
    (Throw (Error "storage area is not initialized"), browser_with_broken_sync).
Proof.
  pose proof (write_failure_propagates sync_item Sync (defined (JStr "dark"))
                browser_with_broken_sync (Error "storage area is not initialized")
                ltac:(discriminate) eq_refl) as [Hset Hclear].
  split; [apply Hset | apply Hclear]; reflexivity.
Defined.

(** ** Construction *)

(** X8: with the storage API available, the constructor returns an item
    exactly for the three area names; the item is then bound to the area of
    that name and carries the key, the default and the name it was given. *)
Theorem construction_succeeds_iff_known_area
    (key' : string) (d : JsVal) (a : string) (w : World) :
  browser_storage w = true →
  ((∃ it w', new_StorageItem key' d a w = (Normal it, w')) ↔
   a = AREA_LOCAL ∨ a = AREA_SYNC ∨ a = AREA_MANAGED) ∧
  (∀ it w', new_StorageItem key' d a w = (Normal it, w') →
            key it = key' ∧ defaultValue it = d ∧ areaName it = a ∧
            area it = area_kind a ∧ is_Some (area it)).
Proof.
  intros Hb. rewrite new_StorageItem_run, Hb. split.
  - destruct (area_kind a) as [k|] eqn:Hk.
    + split; [|by eauto]. intros _. apply area_kind_Some_name in Hk.
      destruct k; auto.
    + split; [by intros (it & w' & ?)|]. apply area_kind_None in Hk.
      destruct Hk as (? & ? & ?). by intros [?|[?|?]].
  - intros it w'. destruct (area_kind a) as [k|]; [|done].
    cbn zeta. intros [= <- <-]. cbn. eauto.
Qed.

Lemma construction_succeeds_iff_known_area_witness :
  (∃ it w', new_StorageItem "theme" undefined "sync" browser_with_storage = (Normal it, w')) ↔
  "sync" = AREA_LOCAL ∨ "sync" = AREA_SYNC ∨ "sync" = AREA_MANAGED.
Proof.
  apply (construction_succeeds_iff_known_area "theme" undefined "sync" browser_with_storage).
  reflexivity.
Defined.

Lemma construction_effects_aux
    (key' : string) (d : JsVal) (a : string) (w w' : World) (it : StorageItem) :
  new_StorageItem key' d a w = (Normal it, w') →
  observers w !! this it = None ∧
  observers w' = <[ this it := [] ]> (observers w).
Proof.
  rewrite new_StorageItem_run.
  assert (observers w !! fresh_address w = None) as Hfresh.
  { apply not_elem_of_dom. unfold fresh_address. apply is_fresh. }
  destruct (browser_storage w); [destruct (area_kind a) as [k|]; [|done]|];
    cbn zeta; intros [= <- <-]; done.
Qed.

(** X9: what construction does to the world.  It never reads or writes the
    store and schedules nothing; the new item has an empty observer set at
    an address no earlier item has.  With the storage API it registers one
    listener, after those already registered, and logs nothing; without it,
    it registers none and logs one warning. *)
Theorem construction_effects
    (key' : string) (d : JsVal) (a : string) (w w' : World) (it : StorageItem) :
  new_StorageItem key' d a w = (Normal it, w') →
  areas w' = areas w ∧
  microtasks w' = microtasks w ∧
  observers w !! this it = None ∧
  observers_of w' it = [] ∧
  (if browser_storage w
   then listeners w' = listeners w ++ [ItemListener it] ∧ log w' = log w
   else listeners w' = listeners w ∧
        log w' = log w ++
                 [console_warn "browser.storage is not available, storage will not work"]).
Proof.
  rewrite new_StorageItem_run.
  assert (observers w !! fresh_address w = None) as Hfresh.
  { apply not_elem_of_dom. unfold fresh_address. apply is_fresh. }
  destruct (browser_storage w); [destruct (area_kind a) as [k|]; [|done]|];
    cbn zeta; intros [= <- <-]; cbn [this];
    (repeat split; try done);
    unfold observers_of; cbn; by rewrite lookup_insert_eq.
Qed.

Lemma construction_effects_witness :
  areas constructed_world = areas browser_with_storage ∧
  microtasks constructed_world = microtasks browser_with_storage ∧
  observers browser_with_storage !! this local_item = None ∧
  observers_of constructed_world local_item = [] ∧
  listeners constructed_world = listeners browser_with_storage ++ [ItemListener local_item] ∧
  log constructed_world = log browser_with_storage.
Proof.
  apply (construction_effects "theme" (defined (JStr "light")) "local"
           browser_with_storage constructed_world local_item).
  vm_compute. reflexivity.
Defined.

Lemma observers_of_update_ne (it b : StorageItem) (l : list Callback)
    (o : gmap nat (list Callback)) (w : World) :
  this it ≠ this b →
  observers_of (set_observers (<[ this it := l ]> o) w) b = default [] (o !! this b).
Proof. intros Hne. unfold observers_of. cbn. by rewrite lookup_insert_ne. Qed.

(** X10: every item has an observer set of its own.  An item constructed
    later than [older] has another address; constructing it, and observing
    or unobserving through it, leaves the observer set of [older] as it
    was. *)
Theorem observer_sets_are_separate
    (older : StorageItem) (key' : string) (d : JsVal) (a : string)
    (w w' : World) (it : StorageItem) :
  is_Some (observers w !! this older) →
  new_StorageItem key' d a w = (Normal it, w') →
  this it ≠ this older ∧
  observers_of w' older = observers_of w older ∧
  ∀ (cb : Callback) (report : bool) (w2 : World),
    observers_of (observe it cb report w2).2 older = observers_of w2 older ∧
    observers_of (unobserve it cb w2).2 older = observers_of w2 older.
Proof.
  intros Hold Hnew.
  destruct (construction_effects_aux _ _ _ _ _ _ Hnew) as (Hfresh & Hobs).
  assert (this it ≠ this older) as Hne.
  { intros Heq. rewrite Heq in Hfresh. rewrite Hfresh in Hold. by destruct Hold. }
  split; [done|]. split.
  - unfold observers_of. rewrite Hobs. by rewrite lookup_insert_ne.
  - intros cb report w2. rewrite observe_run, unobserve_run. cbn [snd].
    by rewrite !observers_of_update_ne.
Qed.

Lemma observer_sets_are_separate_witness :
  this font_item ≠ this local_item ∧
  observers_of (new_StorageItem "font" (defined (JNum 10)) "local" watched_world).2
               local_item = [noisy; quiet].
Proof.
  assert (is_Some (observers watched_world !! this local_item)) as Hold
    by (vm_compute; eauto).
  assert (new_StorageItem "font" (defined (JNum 10)) "local" watched_world =
          (Normal font_item,
           (new_StorageItem "font" (defined (JNum 10)) "local" watched_world).2)) as Hnew
    by (vm_compute; reflexivity).
  destruct (observer_sets_are_separate local_item "font" (defined (JNum 10)) "local"
              watched_world _ font_item Hold Hnew) as (Hne & Hsame & _).
  split; [exact Hne|]. etrans; [exact Hsame|]. vm_compute. reflexivity.
Defined.

(** ** The observer set *)

Lemma registered_iff (cb : Callback) (l : list Callback) :
  registered cb l = true ↔ cb_id cb ∈ identities l.
Proof.
  unfold registered, identities. induction l as [|c l IH]; cbn.
  - split; [done|]. by intros ?%elem_of_nil.
  - rewrite orb_true_iff, IH, elem_of_cons. unfold same_callback.
    rewrite Nat.eqb_eq. split; intros [?|?]; auto.
Qed.

Lemma registered_false_iff (cb : Callback) (l : list Callback) :
  registered cb l = false ↔ cb_id cb ∉ identities l.
Proof. rewrite <- registered_iff. by destruct (registered cb l). Qed.

Lemma identities_Set_add (cb : Callback) (l : list Callback) :
  identities (Set_add cb l) =
  if registered cb l then identities l else identities l ++ [cb_id cb].
Proof.
  unfold Set_add, registered, identities.
  destruct (existsb (same_callback cb) l); [done|]. by rewrite map_app.
Qed.

Lemma identities_Set_delete (cb : Callback) (l : list Callback) :
  identities (Set_delete cb l) = List.filter (λ i, negb (Nat.eqb i (cb_id cb))) (identities l).
Proof.
  unfold Set_delete, identities, same_callback.
  induction l as [|c l IH]; [done|]. cbn.
  destruct (Nat.eqb (cb_id c) (cb_id cb)); cbn; by rewrite IH.
Qed.

Lemma NoDup_List_filter {A : Type} (f : A → bool) (l : list A) :
  NoDup l → NoDup (List.filter f l).
Proof. rewrite !NoDup_ListNoDup. apply List.NoDup_filter. Qed.


(** X12: the observer set holds a callback at most once, and [observe] and
    [unobserve] keep it so.  Observing registers the callback after the
    others unless it is registered already, in which case the set stays as
    it is; unobserving removes it and keeps the others in their order. *)
Theorem observer_set_has_no_duplicates
    (it : StorageItem) (cb : Callback) (report : bool) (w : World) :
  NoDup (identities (observers_of w it)) →
  NoDup (identities (observers_of (observe it cb report w).2 it)) ∧
  NoDup (identities (observers_of (unobserve it cb w).2 it)) ∧
  (registered cb (observers_of w it) = true →
   observers_of (observe it cb report w).2 it = observers_of w it) ∧
  (registered cb (observers_of w it) = false →
   observers_of (observe it cb report w).2 it = observers_of w it ++ [cb]) ∧
  identities (observers_of (unobserve it cb w).2 it) =
    List.filter (λ i, negb (Nat.eqb i (cb_id cb))) (identities (observers_of w it)).
Proof.
  intros Hnd. rewrite observe_run, unobserve_run. cbn [snd].
  rewrite !observers_of_update. repeat split.
  - rewrite identities_Set_add.
    destruct (registered cb (observers_of w it)) eqn:Hreg; [done|].
    apply NoDup_app. split; [done|]. split; [|apply NoDup_singleton].
    intros i Hi ->%list_elem_of_singleton. by apply registered_false_iff in Hreg.
  - rewrite identities_Set_delete. by apply NoDup_List_filter.
  - intros Hreg. unfold Set_add. unfold registered in Hreg. by rewrite Hreg.
  - intros Hreg. unfold Set_add. unfold registered in Hreg. by rewrite Hreg.
  - apply identities_Set_delete.
Qed.

Lemma observer_set_has_no_duplicates_witness :
  NoDup (identities (observers_of (observe local_item noisy true watched_world).2 local_item)) ∧
  NoDup (identities (observers_of (unobserve local_item noisy watched_world).2 local_item)).
Proof.
  assert (NoDup (identities (observers_of watched_world local_item))) as Hnd.
  { apply (bool_decide_unpack _). vm_compute. exact I. }
  destruct (observer_set_has_no_duplicates local_item noisy true watched_world Hnd)
    as (H1 & H2 & _).
  split; [exact H1 | exact H2].
Defined.

(** ** A notification that passes the filter *)

Lemma called_exactly_once (c : Callback) (v : JsVal) (l : list Callback) :
  NoDup (identities l) → c ∈ l →
  calls_of (cb_id c) (map (λ o, invoked (cb_id o) v) l) = [v].
Proof.
  unfold identities. induction l as [|o l IH]; [by intros _ ?%elem_of_nil|].
  cbn [map]. rewrite NoDup_cons, elem_of_cons. intros [Ho Hnd] [->|Hc].
  - rewrite calls_of_invoked, Nat.eqb_refl. f_equal.
    apply unregistered_not_called. by apply registered_false_iff.
  - rewrite calls_of_invoked.
    destruct (Nat.eqb (cb_id o) (cb_id c)) eqn:E; [|by apply IH].
    apply Nat.eqb_eq in E. destruct Ho. rewrite E.
    by apply list_elem_of_fmap_2.
Qed.



(** X13: when no observer throws, a notification for the item's key in its
    area reaches the sink and then every observer, in insertion order and
    each exactly once, with the new value, or with the default when the
    change carries no new value.  Nothing else is logged. *)
Theorem matching_change_notifies_every_observer
    (it : StorageItem) (changes : gmap string StorageChange) (change : StorageChange)
    (w : World) :
  changes !! key it = Some change →
  Forall (λ c, cb_body c (notified_value it change) = None) (observers_of w it) →
  NoDup (identities (observers_of w it)) →
  changeListener it changes (areaName it) w =
    (Normal tt,
     set_log (log w ++
              sink_dispatched (this it) (notified_value it change) ::
              map (λ o, invoked (cb_id o) (notified_value it change)) (observers_of w it))
             w) ∧
  (∀ c, c ∈ observers_of w it →
        calls_of (cb_id c) (log (changeListener it changes (areaName it) w).2) =
        calls_of (cb_id c) (log w) ++ [notified_value it change]) ∧
  (newValue change = undefined → notified_value it change = defaultValue it) ∧
  (newValue change ≠ undefined → notified_value it change = newValue change).
Proof.
  intros Hc Hquiet Hnd.
  rewrite (quiet_observers_all_called it changes change w Hc Hquiet).
  split; [done|]. split; [|split].
  - intros c Hin. cbn [snd log set_log].
    change (?x :: ?l) with ([x] ++ l). rewrite !calls_of_app.
    by rewrite (called_exactly_once c _ _ Hnd Hin).
  - unfold notified_value. by intros ->.
  - unfold notified_value. by destruct (newValue change).
Qed.

Lemma matching_change_notifies_every_observer_witness :
  changeListener local_item theme_removed "local" quiet_world =
    (Normal tt,
     set_log [sink_dispatched 0 (defined (JStr "light"));
              invoked (cb_id quiet) (defined (JStr "light"));
              invoked (cb_id probe) (defined (JStr "light"))] quiet_world).
Proof.
  refine (proj1 (matching_change_notifies_every_observer
                   local_item theme_removed (mkChange (defined (JStr "dark")) undefined)
                   quiet_world _ _ _)).
  - reflexivity.
  - repeat constructor.
  - apply (bool_decide_unpack _). vm_compute. exact I.
Defined.



(** X15: after [unobserve(cb)] no change notification calls [cb], whatever
    the notification and whether or not [cb] was registered. *)
Theorem unobserved_callback_is_not_notified
    (it : StorageItem) (cb : Callback) (changes : gmap string StorageChange)
    (area_name : string) (w : World) :
  ((unobserve it cb;; changeListener it changes area_name) w).1 = Normal tt ∧
  calls_of (cb_id cb) (log ((unobserve it cb;; changeListener it changes area_name) w).2) =
    calls_of (cb_id cb) (log w).
Proof.
  erewrite bind_normal by apply unobserve_run.
  split; [apply changeListener_returns|].
  rewrite unregistered_not_notified; [done|].
  rewrite observers_of_update. apply registered_Set_delete.
Qed.

(** ** From the host to the observers *)

Lemma set_listeners_same (w : World) : set_listeners (listeners w) w = w.
Proof. by destruct w. Qed.

Lemma set_listeners_same_log (l : list Event) (w : World) :
  set_listeners (listeners w) (set_log l w) = set_log l w.
Proof. by destruct w. Qed.

Lemma forEach_app {A : Type} (l1 l2 : list A) (f : A → M unit) (w : World) :
  forEach (l1 ++ l2) f w =
  match forEach l1 f w with
  | (Normal _, w') => forEach l2 f w'
  | (Throw e, w') => (Throw e, w')
  end.
Proof.
  revert w. induction l1 as [|x l1 IH]; intros w; [done|].
  cbn [app forEach]. rewrite !bind_run.
  destruct (f x w) as [[[]|e] w1]; [apply IH|done].
Qed.

(** A listener, run by the host, returns; it adds to the log and changes
    nothing else, and what it adds does not depend on which listeners are
    registered. *)
Lemma guarded_listener_run (l : Listener) (changes : gmap string StorageChange)
    (area_name : string) (w : World) :
  ∃ evs, ∀ ls,
    try_catch (run_listener l changes area_name) (λ e, emit (uncaught e))
              (set_listeners ls w) =
    (Normal tt, set_listeners ls (set_log (log w ++ evs) w)).
Proof.
  destruct l as [it|]; cbn [run_listener].
  - destruct (passing_value it changes) as [v|] eqn:Hp;
      [destruct (decide (area_name = areaName it)) as [->|Hne]|].
    + exists (sink_dispatched (this it) v ::
              map (λ o, invoked (cb_id o) v) (reached v (observers_of w it)) ++
              match first_thrown v (observers_of w it) with
              | Some e => [console_error e]
              | None => []
              end).
      intros ls. unfold try_catch.
      rewrite (changeListener_passes it changes v _ Hp). reflexivity.
    + exists []. intros ls. unfold try_catch.
      rewrite changeListener_filtered by (by left).
      by rewrite app_nil_r, set_log_log.
    + exists []. intros ls. unfold try_catch.
      rewrite changeListener_filtered by (by right).
      by rewrite app_nil_r, set_log_log.
  - eexists. intros ls. reflexivity.
Qed.

Lemma guarded_listeners_run (ls0 : list Listener) (changes : gmap string StorageChange)
    (area_name : string) (w : World) :
  ∃ evs, ∀ ls,
    forEach ls0 (λ l, try_catch (run_listener l changes area_name)
                                (λ e, emit (uncaught e)))
            (set_listeners ls w) =
    (Normal tt, set_listeners ls (set_log (log w ++ evs) w)).
Proof.
  revert w. induction ls0 as [|l ls0 IH]; intros w.
  - exists []. intros ls. cbn. by rewrite app_nil_r, set_log_log.
  - destruct (guarded_listener_run l changes area_name w) as [evs1 H1].
    destruct (IH (set_log (log w ++ evs1) w)) as [evs2 H2].
    exists (evs1 ++ evs2). intros ls. cbn [forEach]. rewrite bind_run, H1, H2.
    cbn [log set_log]. by rewrite set_log_set_log, app_assoc.
Qed.

(** X16: the module of [GlobalStorageObserver] forwards every change
    notification, unfiltered.  With the storage API available, once the
    module is evaluated a notification is dispatched to the static sink
    with the same changes and the same area name, after the listeners that
    were registered before have run as they would have without it. *)
Theorem GlobalStorageObserver_forwards_every_change
    (changes : gmap string StorageChange) (area_name : string) (w : World) :
  browser_storage w = true →
  ∃ evs,
    onChanged_fire changes area_name w = (Normal tt, set_log (log w ++ evs) w) ∧
    (GlobalStorageObserver_module;; onChanged_fire changes area_name) w =
      (Normal tt,
       set_listeners (listeners w ++ [GlobalListener])
         (set_log (log w ++ evs ++ [global_dispatched changes area_name]) w)).
Proof.
  intros Hb.
  destruct (guarded_listeners_run (listeners w) changes area_name w) as [evs Hevs].
  exists evs. split.
  - unfold onChanged_fire. rewrite bind_run. unfold gets at 1.
    specialize (Hevs (listeners w)).
    by rewrite set_listeners_same_log, set_listeners_same in Hevs.
  - erewrite bind_normal by (by apply GlobalStorageObserver_module_with_storage).
    unfold onChanged_fire. rewrite bind_run. unfold gets at 1.
    cbn [listeners set_listeners]. rewrite forEach_app.
    change (mkWorld (browser_storage w) (areas w) ?ls (observers w) (microtasks w) (log w))
      with (set_listeners ls w).
    rewrite Hevs. cbn [forEach run_listener]. rewrite bind_run.
    unfold try_catch, emit. cbn. by rewrite <- app_assoc.
Qed.

Lemma GlobalStorageObserver_forwards_every_change_witness :
  ∃ evs,
    onChanged_fire theme_changed "sync" watched_world =
      (Normal tt, set_log (log watched_world ++ evs) watched_world) ∧
    (GlobalStorageObserver_module;; onChanged_fire theme_changed "sync") watched_world =
      (Normal tt,
       set_listeners (listeners watched_world ++ [GlobalListener])
         (set_log (log watched_world ++ evs ++ [global_dispatched theme_changed "sync"])
                  watched_world)).
Proof.
  apply (GlobalStorageObserver_forwards_every_change theme_changed "sync" watched_world).
  reflexivity.
Defined.

(** X17: from construction to the callback.  With the storage API
    available, an item constructed for one of the three areas and observed
    by [cb] is notified when the host reports a change of its key in its
    area: after the listeners registered earlier have run, the item's sink
    and then [cb] get the new value, or the default when the change carries
    no new value; what [cb] throws is logged. *)
Theorem constructed_item_is_notified
    (key' : string) (d : JsVal) (a : string) (cb : Callback)
    (changes : gmap string StorageChange) (change : StorageChange) (w : World) :
  browser_storage w = true →
  is_Some (area_kind a) →
  changes !! key' = Some change →
  ∃ it w1 evs,
    new_StorageItem key' d a w = (Normal it, w1) ∧
    ((observe it cb false;; onChanged_fire changes a) w1).1 = Normal tt ∧
    log ((observe it cb false;; onChanged_fire changes a) w1).2 =
      log w ++ evs ++
      sink_dispatched (this it)
        (match newValue change with undefined => d | defined j => defined j end) ::
      invoked (cb_id cb)
        (match newValue change with undefined => d | defined j => defined j end) ::
      match cb_body cb (match newValue change with
                        | undefined => d
                        | defined j => defined j
                        end) with
      | Some e => [console_error e]
      | None => []
      end.
Proof.
  intros Hb [k Hk] Hc. rewrite new_StorageItem_run, Hb, Hk. cbn zeta.
  set (it := mkStorageItem (fresh_address w) key' a d (Some k)).
  set (w1 := set_listeners (listeners w ++ [ItemListener it]) (allocated w)).
  assert (observers_of w1 it = []) as Hempty.
  { unfold observers_of. cbn. by rewrite lookup_insert_eq. }
  set (w2 := (observe it cb false w1).2).
  assert (observe it cb false w1 = (Normal tt, w2)) as Hobs
    by (subst w2; by rewrite observe_run).
  assert (observers_of w2 it = [cb] ∧ log w2 = log w ∧
          listeners w2 = listeners w ++ [ItemListener it]) as (Hcb & Hlog & Hls).
  { subst w2. rewrite observe_run. cbn [snd]. rewrite observers_of_update, Hempty. done. }
  destruct (guarded_listeners_run (listeners w) changes a w2) as [evs Hevs].
  specialize (Hevs (listeners w2)). rewrite set_listeners_same_log, set_listeners_same in Hevs.
  exists it, w1, evs. split; [reflexivity|].
  set (v := match newValue change with undefined => d | defined j => defined j end).
  assert ((observe it cb false;; onChanged_fire changes a) w1 =
          (Normal tt,
           set_log (log w ++ evs ++
                    sink_dispatched (this it) v :: invoked (cb_id cb) v ::
                    match cb_body cb v with Some e => [console_error e] | None => [] end)
                   w2)) as Hprog.
  { rewrite (bind_normal _ _ _ _ _ Hobs).
    unfold onChanged_fire. rewrite bind_run. unfold gets at 1.
    rewrite Hls, forEach_app, Hevs.
    cbn [forEach run_listener]. rewrite bind_run. unfold try_catch.
    pose proof (changeListener_run it changes change (set_log (log w2 ++ evs) w2) Hc)
      as Hrun.
    change (areaName it) with a in Hrun. rewrite Hrun.
    change (observers_of (set_log (log w2 ++ evs) w2) it) with (observers_of w2 it).
    rewrite Hcb, Hlog. change (notified_value it change) with v.
    cbn [reached first_thrown map]. rewrite ret_run. cbn [log set_log].
    rewrite set_log_set_log, <- app_assoc.
    by destruct (cb_body cb v). }
  rewrite Hprog. done.
Qed.

Lemma constructed_item_is_notified_witness :
  ∃ it w1 evs,
    new_StorageItem "theme" (defined (JStr "light")) "local" browser_with_storage =
      (Normal it, w1) ∧
    ((observe it probe false;; onChanged_fire theme_removed "local") w1).1 = Normal tt ∧
    log ((observe it probe false;; onChanged_fire theme_removed "local") w1).2 =
      log browser_with_storage ++ evs ++
      [sink_dispatched (this it) (defined (JStr "light"));
       invoked (cb_id probe) (defined (JStr "light"))].
Proof.
  apply (constructed_item_is_notified "theme" (defined (JStr "light")) "local" probe
           theme_removed (mkChange (defined (JStr "dark")) undefined)
           browser_with_storage).
  - reflexivity.
  - exists Local. reflexivity.
  - reflexivity.
Defined.
